(** * source-postgres: the extraction / checkpoint engine

    A shallow embedding of [postgres/source.py]: the query builder
    [get_query], the connection manager [connect], and the table scanner
    [Postgres.read] with its helpers ([execute], [close], [reset],
    [get_max_value], [get_table_metadata], [_report_state]) and the backoff
    decorator wrapped around [read].

    Python values are modelled by [pyval]; dictionaries used as rows by
    [gmap string pyval]; the [OrderedDict] of a checkpoint by an association
    list kept in insertion order.  The database, the random source behind
    [uuid.uuid4] and the host callbacks are modelled by an oracle record and
    an event trace. *)

From Stdlib Require Import ZArith Ascii String List Lia Bool.
From stdpp Require Import base gmap strings list pretty.

Import ListNotations.
Local Open Scope string_scope.
Local Open Scope Z_scope.

(** ** Python values *)

Module Py.

(** The values that flow through the engine: rows fetched from the
    database, the incremental bounds of the configuration, and the values
    of a restored checkpoint. *)
Inductive pyval : Type :=
| VNone
| VBool (b : bool)
| VInt (z : Z)
| VStr (s : string).

#[export] Instance pyval_eq_dec : EqDecision pyval.
Proof. solve_decision. Defined.

(** [bool(x)]: the truth value Python gives an object in [if x:]. *)
Definition truthy (x : pyval) : bool :=
  match x with
  | VNone => false
  | VBool b => b
  | VInt z => negb (z =? 0)
  | VStr s => negb (String.eqb s "")
  end.

(** Truth value of a [str]. *)
Definition str_truthy (s : string) : bool := negb (String.eqb s "").

(** [str(x)], which is what ["{}".format(x)] interpolates. *)
Definition str (x : pyval) : string :=
  match x with
  | VNone => "None"
  | VBool true => "True"
  | VBool false => "False"
  | VInt z => pretty z
  | VStr s => s
  end.

(** [sep.join(l)]. *)
Fixpoint join (sep : string) (l : list string) : string :=
  match l with
  | [] => ""
  | [x] => x
  | x :: xs => x ++ sep ++ join sep xs
  end.

(** [needle in hay] on strings: substring test. *)
Fixpoint str_in (needle hay : string) : bool :=
  if String.prefix needle hay then true
  else match hay with
       | EmptyString => false
       | String _ hay' => str_in needle hay'
       end.

(** [x in l] on a list of strings. *)
Definition list_in (x : string) (l : list string) : bool :=
  bool_decide (x ∈ l).

(** [s.split(c, 1)]: the text before and after the first [c].  [None]
    stands for the one-element list Python returns when [c] does not
    occur, which the callers cannot unpack in two. *)
Fixpoint split1 (c : ascii) (s : string) : option (string * string) :=
  match s with
  | EmptyString => None
  | String a s' =>
      if Ascii.eqb a c then Some (EmptyString, s')
      else match split1 c s' with
           | Some (l, r) => Some (String a l, r)
           | None => None
           end
  end.

(** [s.rsplit(c, 1)]: the text before and after the last [c], with the
    same convention. *)
Fixpoint rsplit1 (c : ascii) (s : string) : option (string * string) :=
  match s with
  | EmptyString => None
  | String a s' =>
      match rsplit1 c s' with
      | Some (l, r) => Some (String a l, r)
      | None => if Ascii.eqb a c then Some (EmptyString, s') else None
      end
  end.

(** [c in s] for a one-character needle. *)
Fixpoint has_char (c : ascii) (s : string) : bool :=
  match s with
  | EmptyString => false
  | String a s' => Ascii.eqb a c || has_char c s'
  end.

(** ASCII whitespace, as [str.strip] and [int] understand it. *)
Definition is_space (a : ascii) : bool :=
  let n := nat_of_ascii a in
  (Nat.eqb n 32 || (Nat.leb 9 n && Nat.leb n 13))%bool.

Fixpoint lstrip (s : string) : string :=
  match s with
  | String a s' => if is_space a then lstrip s' else s
  | EmptyString => EmptyString
  end.

Fixpoint rstrip (s : string) : string :=
  match s with
  | EmptyString => EmptyString
  | String a s' =>
      match rstrip s' with
      | EmptyString => if is_space a then EmptyString else String a EmptyString
      | t => String a t
      end
  end.

Definition digit_of (a : ascii) : option Z :=
  let n := nat_of_ascii a in
  if (Nat.leb 48 n && Nat.leb n 57)%bool then Some (Z.of_nat n - 48) else None.

(** Value of a non-empty run of decimal digits, read left to right. *)
Fixpoint digits_value (acc : Z) (s : string) : option Z :=
  match s with
  | EmptyString => Some acc
  | String a s' =>
      match digit_of a with
      | Some d => digits_value (10 * acc + d) s'
      | None => None
      end
  end.

Definition unsigned_value (s : string) : option Z :=
  match s with
  | EmptyString => None
  | _ => digits_value 0 s
  end.

(** [int(s)] on a [str]: surrounding whitespace, an optional sign, decimal
    digits; [None] stands for [ValueError]. *)
Definition int_of_str (s : string) : option Z :=
  match rstrip (lstrip s) with
  | String "-" t => option_map Z.opp (unsigned_value t)
  | String "+" t => unsigned_value t
  | t => unsigned_value t
  end.

End Py.

Import Py.

(** ** Rows, keys and checkpoints *)

(** A row of a [RealDictCursor]: a dictionary from column name to value. *)
Abbreviation Row := (gmap string pyval).

(** [row.get(key)]: [None] when the key is missing. *)
Definition row_get (r : Row) (k : string) : pyval :=
  match r !! k with
  | Some v => v
  | None => VNone
  end.

(** One row of the key introspection query [SQL_GET_KEYS] (or of
    [SQL_GET_COLUMNS], of which only [attname] is read by this file). *)
Record KeyDescriptor : Type := mkKey {
  attname : string;
  datatype : string;
  indnatts : Z;
  indisunique : bool;
  indisprimary : bool;
  (** the owning index, which the test fixtures carry as [indexrelid] *)
  indexrelid : string
}.

(** An [OrderedDict] from column name to value, in insertion order. *)
Definition OrderedDict : Type := list (string * pyval).

(** [d[k] = v] on an [OrderedDict]: an existing key keeps its position. *)
Fixpoint od_set (k : string) (v : pyval) (d : OrderedDict) : OrderedDict :=
  match d with
  | [] => [(k, v)]
  | (k', v') :: d' =>
      if String.eqb k' k then (k', v) :: d' else (k', v') :: od_set k v d'
  end.

(** [OrderedDict(pairs)]. *)
Definition od_of_pairs (pairs : list (string * pyval)) : OrderedDict :=
  fold_left (fun d kv => od_set (fst kv) (snd kv) d) pairs [].

Definition od_keys (d : OrderedDict) : list string := map fst d.
Definition od_values (d : OrderedDict) : list pyval := map snd d.

(** ** The query builder *)

(** The double-quote character, which wraps schema and table names. *)
Definition dq : string := String "034"%char EmptyString.

(** The single-quote character, which wraps literals. *)
Definition sq : string := "'".

(** ["'{}'".format(x)]. *)
Definition quote_literal (x : pyval) : string := sq ++ str x ++ sq.

(** [' ORDER BY ...'], or the empty string when there are no keys. *)
Definition get_query_orderby (inckey : string) (keys : list KeyDescriptor)
  : string :=
  match keys with
  | [] => ""
  | _ :: _ =>
      let keys := map attname keys in
      let keys :=
        if str_truthy inckey && negb (list_in inckey keys)
        then (keys ++ [inckey])%list else keys in
      " ORDER BY " ++ join "," keys
  end.

(** The resume predicate built from the saved state, or the empty string. *)
Definition get_query_resume (state : option OrderedDict) : string :=
  match state with
  | None | Some [] => ""
  | Some st =>
      let multi_column_index := length st in
      let cols := join "," (od_keys st) in
      let vals := join "," (map quote_literal (od_values st)) in
      if (1 <? Z.of_nat multi_column_index)
      then "(" ++ cols ++ ") >= (" ++ vals ++ ")"
      else cols ++ " >= " ++ vals
  end.

(** The body of ['{}' ' >= ' ...] for the incremental column. *)
Definition get_query_inc_clause (inckey : string) (incval max_value : pyval)
  : string :=
  let inc_clause := inckey ++ " >= " ++ sq ++ str incval ++ sq in
  if truthy max_value
  then "(" ++ inc_clause ++ " AND " ++ inckey ++ " <= " ++ str max_value ++ ")"
  else inc_clause.

(** The text that follows [WHERE], or the empty string. *)
Definition get_query_where (inckey : string) (incval max_value : pyval)
    (state : option OrderedDict) : string :=
  let where_ := get_query_resume state in
  if (str_truthy inckey && truthy incval) && negb (str_in inckey where_)
  then
    let where_ := if str_truthy where_ then where_ ++ " AND " else where_ in
    where_ ++ get_query_inc_clause inckey incval max_value
  else where_.

(** The head of the statement: ['SELECT * FROM "{}"."{}"']. *)
Definition select_from (schema table : string) : string :=
  "SELECT * FROM " ++ dq ++ schema ++ dq ++ "." ++ dq ++ table ++ dq.

(** [' WHERE ...'], or the empty string when there is no predicate. *)
Definition get_query_where_clause (inckey : string) (incval max_value : pyval)
    (state : option OrderedDict) : string :=
  let where_ := get_query_where inckey incval max_value state in
  if str_truthy where_ then " WHERE " ++ where_ else where_.

(** [get_query(schema, table, inckey, incval, keys, max_value, state)]. *)
Definition get_query (schema table inckey : string) (incval : pyval)
    (keys : list KeyDescriptor) (max_value : pyval)
    (state : option OrderedDict) : string :=
  let offset := "" in
  let orderby := get_query_orderby inckey keys in
  let where_ := get_query_where_clause inckey incval max_value state in
  select_from schema table ++ where_ ++ orderby ++ offset.

(** ** [uuid.uuid4] of the standard library *)

Module UUID.

(** [UUID(bytes=os.urandom(16), version=4)]: the 128 random bits with the
    variant and the version fields overwritten. *)
Definition uuid4 (random : Z) : Z :=
  let int := random mod 2 ^ 128 in
  let int := Z.land int (Z.lnot (Z.shiftl 0xc000 48)) in
  let int := Z.lor int (Z.shiftl 0x8000 48) in
  let int := Z.land int (Z.lnot (Z.shiftl 0xf000 64)) in
  Z.lor int (Z.shiftl 4 76).

Definition hex_alphabet : list ascii :=
  list_ascii_of_string "0123456789abcdef".

Definition hex_char (d : Z) : ascii :=
  nth (Z.to_nat (d mod 16)) hex_alphabet "0"%char.

(** Digit [j] (from the left) of ['%032x' % int]. *)
Definition hex_digit (int : Z) (j : nat) : ascii :=
  hex_char (Z.shiftr int (4 * Z.of_nat (31 - j))).

(** Digits [from], [from+1], ..., [from+len-1] of the 32 hex digits,
    followed by [rest]. *)
Fixpoint hex_slice (int : Z) (from len : nat) (rest : string) : string :=
  match len with
  | O => rest
  | S len' => String (hex_digit int from) (hex_slice int (S from) len' rest)
  end.

(** [str(u)]: the groups [hex[:8]], [hex[8:12]], [hex[12:16]],
    [hex[16:20]], [hex[20:]] joined by hyphens. *)
Definition to_str (int : Z) : string :=
  hex_slice int 0 8 (String "-"
  (hex_slice int 8 4 (String "-"
  (hex_slice int 12 4 (String "-"
  (hex_slice int 16 4 (String "-"
  (hex_slice int 20 12 EmptyString)))))))).

Definition is_hex_char (a : ascii) : bool :=
  bool_decide (a ∈ hex_alphabet).

(** The canonical textual form: 36 characters, hyphens at positions 8, 13,
    18 and 23, lower-case hexadecimal digits elsewhere. *)
Fixpoint is_uuid_format_from (pos : nat) (s : string) : bool :=
  match s with
  | EmptyString => Nat.eqb pos 36
  | String a s' =>
      (if (Nat.eqb pos 8 || Nat.eqb pos 13 || Nat.eqb pos 18 || Nat.eqb pos 23)%bool
       then Ascii.eqb a "-" else is_hex_char a)
      && is_uuid_format_from (S pos) s'
  end.

Definition is_uuid_format (s : string) : bool := is_uuid_format_from 0 s.

End UUID.

(** ** The engine *)

Definition DEST : string := "{__tablename}".
Definition BATCH_SIZE : Z := 5000.
Definition CONNECT_TIMEOUT : Z := 15.
Definition MAX_RETRIES : nat := 5.

(** [SQL_GET_KEYS.format(table)]. *)
Definition SQL_GET_KEYS (table : string) : string :=
  "
            SELECT a.attname,
                   format_type(a.atttypid, a.atttypmod) as datatype,
                   i.indnatts,
                   i.indisunique,
                   i.indisprimary
            FROM   pg_index i
                   JOIN   pg_attribute a ON a.attrelid = i.indrelid
                   AND a.attnum = ANY(i.indkey)
            WHERE  i.indrelid = '" ++ table ++ "'::regclass
            ".

(** [SQL_GET_COLUMNS.format(table)]. *)
Definition SQL_GET_COLUMNS (table : string) : string :=
  "
            SELECT a.attname,
                    a.attrelid::regclass,
                   format_type(a.atttypid, a.atttypmod) AS data_type
            FROM pg_attribute as a
            WHERE a.attrelid = '" ++ table ++ "'::regclass
            and a.attnum > 0;
            ".

(** The exceptions the engine raises or lets through.  In [psycopg2],
    [OperationalError] is a subclass of [DatabaseError]. *)
Inductive Exn : Type :=
| DatabaseError (message : string)
| OperationalError (message : string)
| PanoplyException (message : string) (retryable : bool)
| ValueError (message : string)
| IndexError (message : string)
| TypeError (message : string)
| AttributeError (message : string)
| OtherError (message : string).

(** [isinstance(e, psycopg2.DatabaseError)]. *)
Definition is_DatabaseError (e : Exn) : bool :=
  match e with
  | DatabaseError _ | OperationalError _ => true
  | _ => false
  end.

(** An entry of the configured table list. *)
Record TableRef : Type := mkTable {
  name : string;
  value : string
}.

(** The resume descriptor: the dictionary with the optional entries
    [last_index] and [last_value]. *)
Record SavedState : Type := mkSaved {
  last_index : option Z;
  last_value : option OrderedDict
}.

Definition empty_state : SavedState := mkSaved None None.

(** The [source] dictionary handed to the constructor. *)
Record Source : Type := mkSource {
  src_addr : string;
  src_user : string;
  src_password : string;
  src_inckey : option string;
  src_incval : option pyval;
  src_tables : option (list TableRef);
  src_state : option SavedState;
  src_batchSize : option Z;
  src_destination : option string
}.

(** The attributes of a [Postgres] instance. *)
Record Postgres : Type := mkPostgres {
  source : Source;
  batch_size : Z;
  tables : list TableRef;
  index : Z;
  conn : option nat;
  cursor : option nat;
  state_id : option string;
  loaded : Z;
  saved_state : SavedState;
  current_keys : option (list KeyDescriptor);
  inckey : string;
  incval : pyval
}.

Definition set_handles (cn cu : option nat) (self : Postgres) : Postgres :=
  mkPostgres (source self) (batch_size self) (tables self) (index self)
    cn cu (state_id self) (loaded self) (saved_state self)
    (current_keys self) (inckey self) (incval self).

Definition set_index (i : Z) (self : Postgres) : Postgres :=
  mkPostgres (source self) (batch_size self) (tables self) i
    (conn self) (cursor self) (state_id self) (loaded self) (saved_state self)
    (current_keys self) (inckey self) (incval self).

Definition set_state_id (sid : option string) (self : Postgres) : Postgres :=
  mkPostgres (source self) (batch_size self) (tables self) (index self)
    (conn self) (cursor self) sid (loaded self) (saved_state self)
    (current_keys self) (inckey self) (incval self).

Definition set_loaded (n : Z) (self : Postgres) : Postgres :=
  mkPostgres (source self) (batch_size self) (tables self) (index self)
    (conn self) (cursor self) (state_id self) n (saved_state self)
    (current_keys self) (inckey self) (incval self).

Definition set_saved_state (st : SavedState) (self : Postgres) : Postgres :=
  mkPostgres (source self) (batch_size self) (tables self) (index self)
    (conn self) (cursor self) (state_id self) (loaded self) st
    (current_keys self) (inckey self) (incval self).

Definition set_current_keys (ks : option (list KeyDescriptor))
    (self : Postgres) : Postgres :=
  mkPostgres (source self) (batch_size self) (tables self) (index self)
    (conn self) (cursor self) (state_id self) (loaded self) (saved_state self)
    ks (inckey self) (incval self).

(** [Postgres.__init__]: the saved state is taken out of the source. *)
Definition init (src : Source) : Postgres :=
  let saved := default empty_state (src_state src) in
  {| source :=
       mkSource (src_addr src) (src_user src) (src_password src)
         (src_inckey src) (src_incval src) (src_tables src) None
         (src_batchSize src) (Some (default DEST (src_destination src)));
     batch_size := default BATCH_SIZE (src_batchSize src);
     tables := default [] (src_tables src);
     index := default 0 (last_index saved);
     conn := None;
     cursor := None;
     state_id := None;
     loaded := 0;
     saved_state := saved;
     current_keys := None;
     inckey := default "" (src_inckey src);
     incval := default (VStr "") (src_incval src) |}.

(** The keyword arguments of [psycopg2.connect]. *)
Record ConnectArgs : Type := mkArgs {
  arg_host : string;
  arg_port : Z;
  arg_user : string;
  arg_password : string;
  arg_dbname : string;
  arg_connect_timeout : Z
}.

(** What the engine does to the outside: calls on the database driver and
    on the host, in the order they happen. *)
Inductive Event : Type :=
| EvProgress (i total : Z) (msg : string)
| EvConnect (args : ConnectArgs)
| EvExecute (query : string)
| EvCursorClose
| EvRollback
| EvConnClose
| EvState (state_id : option string) (state : SavedState)
| EvBackoff (tries : nat).

(** The outside world, as answers indexed by how many calls of the same
    kind came before. *)
Record Database : Type := mkDatabase {
  (** outcome of the n-th [psycopg2.connect] (with the cursor creation):
      [None] is success *)
  db_connect : nat -> ConnectArgs -> option Exn;
  (** outcome of the n-th [cursor.execute]: [None] is success *)
  db_execute : nat -> string -> option Exn;
  (** rows fetched after the n-th statement when it is a catalog query *)
  db_metadata : nat -> string -> list KeyDescriptor;
  (** the [max] column fetched after the n-th statement *)
  db_max : nat -> string -> pyval;
  (** rows fetched after the n-th [FETCH FORWARD] *)
  db_fetch : nat -> list Row;
  (** the n-th 16 random bytes, as an integer *)
  db_random : nat -> Z
}.

(** How many calls of each kind have been made so far. *)
Record Counters : Type := mkCounters {
  connects : nat;
  statements : nat;
  fetches : nat;
  draws : nat
}.

Definition fresh : Counters := mkCounters 0 0 0 0.

(** ** A state, error and trace monad for the methods *)

Inductive Result (A : Type) : Type :=
| Ok (a : A)
| Raise (e : Exn).
Arguments Ok {A} a.
Arguments Raise {A} e.

Definition M (A : Type) : Type :=
  Postgres -> Counters -> Result A * Postgres * Counters * list Event.

Definition ret {A} (a : A) : M A := fun self c => (Ok a, self, c, []).

Definition raise {A} (e : Exn) : M A := fun self c => (Raise e, self, c, []).

Definition bind {A B} (m : M A) (f : A -> M B) : M B :=
  fun self c =>
    match m self c with
    | (Ok a, self1, c1, ev1) =>
        match f a self1 c1 with
        | (r, self2, c2, ev2) => (r, self2, c2, (ev1 ++ ev2)%list)
        end
    | (Raise e, self1, c1, ev1) => (Raise e, self1, c1, ev1)
    end.

Definition get_self : M Postgres := fun self c => (Ok self, self, c, []).
Definition modify (f : Postgres -> Postgres) : M unit :=
  fun self c => (Ok tt, f self, c, []).
Definition emit (e : Event) : M unit := fun self c => (Ok tt, self, c, [e]).

Declare Scope engine_scope.
Delimit Scope engine_scope with engine.
Notation "x <- m ;; k" := (bind m (fun x => k))
  (at level 100, m at next level, right associativity) : engine_scope.
Notation "m ;;; k" := (bind m (fun _ => k))
  (at level 100, right associativity) : engine_scope.
Local Open Scope engine_scope.

(** ** The methods *)

Section Engine.

(** [keystrategy.KEY_STRATEGY]: the ordered list of key-selection
    strategies, each mapping the candidate descriptors to the chosen ones
    (empty when the strategy does not apply). *)
Variable KEY_STRATEGY : list (list KeyDescriptor -> list KeyDescriptor).

Variable db : Database.

(** [key_strategy(keys)]: the first non-empty answer, else [keys]. *)
Definition key_strategy (keys : list KeyDescriptor) : list KeyDescriptor :=
  let keys_copy := keys in
  let fix loop (strategies : list (list KeyDescriptor -> list KeyDescriptor)) :=
    match strategies with
    | [] => keys
    | strategy :: rest =>
        match strategy keys_copy with
        | [] => loop rest
        | results => results
        end
    end in
  loop KEY_STRATEGY.

(** The first lines of [connect]: the address [host[:port]/database] is
    cut at its last slash, then the host part at its last colon. *)
Definition parse_addr (addr : string) : Result (string * Z * string) :=
  match rsplit1 "/" addr with
  | None => Raise (ValueError "need more than 1 value to unpack")
  | Some (host, dbname) =>
      if has_char ":" host then
        match rsplit1 ":" host with
        | Some (host, port) =>
            match int_of_str port with
            | Some port => Ok (host, port, dbname)
            | None => Raise (ValueError "invalid literal for int()")
            end
        | None => Raise (ValueError "need more than 1 value to unpack")
        end
      else Ok (host, 5432, dbname)
  end.

(** [connect(source)]: returns the connection and cursor handles. *)
Definition connect (src : Source) : M (nat * nat) :=
  match parse_addr (src_addr src) with
  | Raise e => raise e
  | Ok (host, port, dbname) =>
      let args := mkArgs host port (src_user src) (src_password src)
                    dbname CONNECT_TIMEOUT in
      fun self c =>
        let n := connects c in
        let c' := mkCounters (S n) (statements c) (fetches c) (draws c) in
        match db_connect db n args with
        | None => (Ok (n, n), self, c', [EvConnect args])
        | Some (OperationalError message) =>
            let e :=
              if str_in "authentication failed" message
              then PanoplyException
                     ("Login failed for user: " ++ src_user src) false
              else OperationalError message in
            (Raise e, self, c', [EvConnect args])
        | Some e => (Raise e, self, c', [EvConnect args])
        end
  end.

(** [Postgres.reset]. *)
Definition reset_self (self : Postgres) : Postgres :=
  set_handles None None (set_loaded 0 self).

Definition reset : M unit := modify reset_self.

(** [Postgres.execute]: a database error clears the handles before it is
    raised again. *)
Definition execute (query : string) : M unit :=
  fun self c =>
    match cursor self with
    | None =>
        (Raise (AttributeError "'NoneType' object has no attribute 'execute'"),
         self, c, [])
    | Some _ =>
        let n := statements c in
        let c' := mkCounters (connects c) (S n) (fetches c) (draws c) in
        match db_execute db n query with
        | None => (Ok tt, self, c', [EvExecute query])
        | Some e =>
            if is_DatabaseError e
            then (Raise e, reset_self self, c', [EvExecute query])
            else (Raise e, self, c', [EvExecute query])
        end
    end.

(** [Postgres.close]. *)
Definition close : M unit :=
  self <- get_self ;;
  (if cursor self is Some _ then emit EvCursorClose else ret tt) ;;;
  (if conn self is Some _ then (emit EvRollback ;;; emit EvConnClose)
   else ret tt) ;;;
  reset.

(** [Postgres.get_table_metadata], for either catalog query. *)
Definition get_table_metadata (sql : string -> string) (table : string)
  : M (list KeyDescriptor) :=
  let sql := sql table in
  fun self c =>
    match execute sql self c with
    | (Ok _, self1, c1, ev) =>
        (Ok (db_metadata db (statements c) sql), self1, c1, ev)
    | (Raise e, self1, c1, ev) => (Raise e, self1, c1, ev)
    end.

(** [Postgres.get_max_value]. *)
Definition get_max_value (schema table column : string) : M pyval :=
  if negb (str_truthy column) then ret VNone
  else
    let query := "SELECT MAX(" ++ dq ++ column ++ dq ++ ") FROM "
                   ++ dq ++ schema ++ dq ++ "." ++ dq ++ table ++ dq in
    fun self c =>
      match execute query self c with
      | (Ok _, self1, c1, ev) =>
          (Ok (db_max db (statements c) query), self1, c1, ev)
      | (Raise e, self1, c1, ev) => (Raise e, self1, c1, ev)
      end.

(** The [last_value] of a checkpoint: the ordering-key columns of the last
    row, in key order. *)
Definition checkpoint_value (keys : list KeyDescriptor) (last_row : Row)
  : OrderedDict :=
  let keys := map attname keys in
  od_of_pairs (map (fun key => (key, row_get last_row key)) keys).

(** [Postgres._report_state]. *)
Definition _report_state (current_index : Z) (last_row : Row) : M unit :=
  self <- get_self ;;
  match current_keys self with
  | Some keys =>
      let st := mkSaved (Some current_index)
                  (Some (checkpoint_value keys last_row)) in
      modify (set_saved_state st) ;;;
      emit (EvState (state_id self) st)
  | None => raise (TypeError "argument 2 to map() must support iteration")
  end.

(** [l[i]] with Python's negative indices. *)
Definition py_index {A} (l : list A) (i : Z) : option A :=
  let n := Z.of_nat (length l) in
  if (0 <=? i) && (i <? n) then l !! Z.to_nat i
  else if (- n <=? i) && (i <? 0) then l !! Z.to_nat (n + i)
  else None.

(** [dict(r, **internals)]: the three tags are written over the row. *)
Definition tag_row (table schema sid : string) (r : Row) : Row :=
  <["__tablename" := VStr table]>
    (<["__schemaname" := VStr schema]>
      (<["__state" := VStr sid]> r)).

(** The cursor declaration of [read], run when no cursor is open. *)
Definition open_cursor (schema table : string) : M unit :=
  self <- get_self ;;
  handles <- connect (source self) ;;
  modify (set_handles (Some (fst handles)) (Some (snd handles))) ;;;
  self <- get_self ;;
  let state := last_value (saved_state self) in
  (match current_keys self with
   | None | Some [] =>
       keys <- get_table_metadata SQL_GET_KEYS table ;;
       modify (set_current_keys (Some keys))
   | Some (_ :: _) => ret tt
   end) ;;;
  self <- get_self ;;
  (match current_keys self with
   | None | Some [] =>
       keys <- get_table_metadata SQL_GET_COLUMNS table ;;
       modify (set_current_keys (Some (take 1 keys)))
   | Some (_ :: _) => ret tt
   end) ;;;
  self <- get_self ;;
  let keys := key_strategy (default [] (current_keys self)) in
  modify (set_current_keys (Some keys)) ;;;
  max_value <- get_max_value schema table (inckey self) ;;
  let q := get_query schema table (inckey self) (incval self) keys
             max_value state in
  execute ("DECLARE cur CURSOR FOR " ++ q).

(** Lines 124-139 of [read]: fetch the next rows from the cursor, draw
    the state identifier of the batch and tag every row with it. *)
Definition fetch_batch (batch_size : Z) (schema table : string)
  : M (list Row) :=
  execute ("FETCH FORWARD " ++ pretty batch_size ++ " FROM cur") ;;;
  rows <- (fun self c =>
             (Ok (db_fetch db (fetches c)), self,
              mkCounters (connects c) (statements c)
                (S (fetches c)) (draws c), [])) ;;
  sid <- (fun self c =>
            (Ok (UUID.to_str (UUID.uuid4 (db_random db (draws c)))),
             self,
             mkCounters (connects c) (statements c) (fetches c)
               (S (draws c)), [])) ;;
  modify (set_state_id (Some sid)) ;;;
  let result := map (tag_row table schema sid) rows in
  modify (fun self =>
            set_loaded (loaded self + Z.of_nat (length result)) self) ;;;
  ret result.

(** Lines 141-152 of [read]: an empty batch ends the table, any other
    batch is checkpointed at its last row. *)
Definition finish_batch (result : list Row) : M (option (list Row)) :=
  match last result with
  | None =>
      close ;;;
      modify (fun self => set_index (index self + 1) self) ;;;
      modify (set_loaded 0) ;;;
      modify (set_current_keys None) ;;;
      modify (set_saved_state empty_state) ;;;
      ret (Some result)
  | Some last_row =>
      self <- get_self ;;
      _report_state (index self) last_row ;;;
      ret (Some result)
  end.

(** The body of [Postgres.read], one attempt.  [Ok None] is the "no more
    data" result. *)
Definition read_body (batch_size_arg : option Z) : M (option (list Row)) :=
  self <- get_self ;;
  let batch_size :=
    match batch_size_arg with
    | Some n => if n =? 0 then batch_size self else n
    | None => batch_size self
    end in
  let total := Z.of_nat (length (tables self)) in
  if total <=? index self then ret None
  else
    match py_index (tables self) (index self) with
    | None => raise (IndexError "list index out of range")
    | Some t =>
        match split1 "." (value t) with
        | None => raise (ValueError "need more than 1 value to unpack")
        | Some (schema, table) =>
            let msg := "Reading table " ++ pretty (index self + 1) ++ " ("
                         ++ table ++ ") out of " ++ pretty total in
            emit (EvProgress (index self + 1) total msg) ;;;
            (if cursor self is Some _ then ret tt
             else open_cursor schema table) ;;;
            result <- fetch_batch batch_size schema table ;;
            finish_batch result
        end
    end.

(** [backoff.on_exception(backoff.expo, psycopg2.DatabaseError,
    max_tries=...)]: the target is called again after a database error
    until [max_tries] calls have been made; any other exception, and the
    last database error, propagate.  [remaining] is the number of calls
    still allowed after the current one, [tries] the number of the current
    call.  The wait between two calls is not modelled. *)
Fixpoint on_exception {A} (remaining tries : nat) (target : M A) : M A :=
  fun self c =>
    match target self c with
    | (Ok a, self1, c1, ev1) => (Ok a, self1, c1, ev1)
    | (Raise e, self1, c1, ev1) =>
        match remaining with
        | O => (Raise e, self1, c1, ev1)
        | S remaining' =>
            if is_DatabaseError e then
              match on_exception remaining' (S tries) target self1 c1 with
              | (r, self2, c2, ev2) =>
                  (r, self2, c2, (ev1 ++ EvBackoff tries :: ev2)%list)
              end
            else (Raise e, self1, c1, ev1)
        end
    end.

(** [Postgres.read], as the host calls it: the body under the backoff
    decorator. *)
Definition read (batch_size_arg : option Z) : M (option (list Row)) :=
  on_exception (MAX_RETRIES - 1) 1 (read_body batch_size_arg).

(** [format_table_name(row)]: the entry of the table list for a row of
    [information_schema.tables].  The value is schema-qualified; the
    display name marks views.  A missing column is a [KeyError]. *)
Definition format_table_name (row : Row) : Result TableRef :=
  match row !! "table_schema" with
  | None => Raise (OtherError "KeyError: 'table_schema'")
  | Some table_schema =>
      match row !! "table_name" with
      | None => Raise (OtherError "KeyError: 'table_name'")
      | Some table_name =>
          let value := str table_schema ++ "." ++ str table_name in
          match row !! "table_type" with
          | None => Raise (OtherError "KeyError: 'table_type'")
          | Some table_type =>
              let name :=
                if bool_decide (table_type = VStr "VIEW")
                then value ++ " (VIEW)" else value in
              Ok (mkTable name value)
          end
      end
  end.




End Engine.

(** ** The key strategies *)

Module KeyStrategy.

(** Modelled from the spec: [keystrategy.KEY_STRATEGY], which
    [postgres/source.py] imports and whose module is not part of the
    sources.  The strategies are those of the Key Strategy Selector, in
    order: the primary key; the smallest unique index; the smallest index
    of any kind.  Each returns nothing when it does not apply. *)
Definition primary_key (keys : list KeyDescriptor) : list KeyDescriptor :=
  filter (fun k => indisprimary k = true) keys.

(** The indexes of the candidates that are not part of the primary key, in
    first-seen order, each with its members. *)
Fixpoint group_by_index (keys : list KeyDescriptor)
  : list (string * list KeyDescriptor) :=
  match keys with
  | [] => []
  | k :: rest =>
      let groups := group_by_index rest in
      let mine := filter (fun g => String.eqb (fst g) (indexrelid k)) groups in
      let others :=
        filter (fun g => negb (String.eqb (fst g) (indexrelid k))) groups in
      (indexrelid k, k :: concat (map snd mine)) :: others
  end.

(** The first group with the fewest columns. *)
Fixpoint smallest (groups : list (string * list KeyDescriptor))
  : list KeyDescriptor :=
  match groups with
  | [] => []
  | g :: rest =>
      match smallest rest with
      | [] => snd g
      | best =>
          if Z.of_nat (length (snd g)) <=? Z.of_nat (length best)
          then snd g else best
      end
  end.

Definition secondary (keys : list KeyDescriptor) : list KeyDescriptor :=
  filter (fun k => indisprimary k = false) keys.

Definition smallest_unique_index (keys : list KeyDescriptor)
  : list KeyDescriptor :=
  smallest
    (filter (fun g => forallb indisunique (snd g))
       (group_by_index (secondary keys))).

Definition smallest_index (keys : list KeyDescriptor) : list KeyDescriptor :=
  smallest (group_by_index (secondary keys)).

Definition KEY_STRATEGY : list (list KeyDescriptor -> list KeyDescriptor) :=
  [primary_key; smallest_unique_index; smallest_index].

End KeyStrategy.

(** ** A recorded session, after the end-of-stream test of the repository *)

Module Session.

Definition column (name : string) : KeyDescriptor :=
  mkKey name "integer" 1 false false "".

Definition mock_recs : list Row :=
  [ {[ "id" := VInt 1; "col1" := VStr "foo1"; "col2" := VStr "bar1" ]};
    {[ "id" := VInt 2; "col1" := VStr "foo2"; "col2" := VStr "bar2" ]};
    {[ "id" := VInt 3; "col1" := VStr "foo3"; "col2" := VStr "bar3" ]} ].

Definition src : Source :=
  mkSource "test.database.name/foobar" "test" "testpassword"
    (Some "inckey") (Some (VStr "incval"))
    (Some [ mkTable "public.table1" "public.table1";
            mkTable "public.table2" "public.table2";
            mkTable "public.table3" "public.table3" ])
    None None None.

(** The catalog knows one column per table; every table yields one batch
    of three rows and then an empty one; nothing fails. *)
Definition database : Database :=
  {| db_connect := fun _ _ => None;
     db_execute := fun _ _ => None;
     db_metadata := fun n sql =>
       if str_in "pg_index" sql then []
       else if str_in "table1" sql then [column "col1"; column "other"]
       else if str_in "table2" sql then [column "col2"; column "other"]
       else [column "col3"; column "other"];
     db_max := fun _ _ => VNone;
     db_fetch := fun n => if Nat.even n then mock_recs else [];
     db_random := fun n => Z.of_nat n * 7919 + 2 ^ 100 |}.

End Session.

(** ** Observations on a run *)

(** The checkpoints handed to the host among some events, in order. *)
Definition reports (events : list Event) : list (option string * SavedState) :=
  flat_map (fun e => match e with
                     | EvState sid st => [(sid, st)]
                     | _ => []
                     end) events.

(** A database that accepts every connection and every statement. *)
Definition healthy (db : Database) : Prop :=
  (forall n args, db_connect db n args = None)
  /\ (forall n query, db_execute db n query = None).

(** Methods that hand no checkpoint to the host. *)
Definition quiet {A} (m : M A) : Prop :=
  forall self c, reports (m self c).2 = [].

(** What statements and cursor opening leave alone in the instance: they
    touch the handles, the row counter and the current keys only. *)
Definition frame (self self' : Postgres) : Prop :=
  index self' = index self
  /\ tables self' = tables self
  /\ source self' = source self
  /\ saved_state self' = saved_state self
  /\ inckey self' = inckey self
  /\ incval self' = incval self
  /\ batch_size self' = batch_size self
  /\ state_id self' = state_id self.

Definition framed {A} (m : M A) : Prop :=
  forall self c, frame self (m self c).1.1.2.

(** The checkpoint of a batch: the table index and the ordering-key
    columns of its last row. *)
Definition checkpoint_of (index : Z) (keys : list KeyDescriptor)
    (last_row : Row) : SavedState :=
  mkSaved (Some index) (Some (checkpoint_value keys last_row)).

(** What one call of [read] on [self] reports, by its result: after a
    non-empty batch the last event is the one checkpoint of the call; in
    every other case nothing is reported. *)
Definition read_post (self : Postgres) (r : Result (option (list Row)))
    (self' : Postgres) (events : list Event) : Prop :=
  match r with
  | Ok (Some rows) =>
      match last rows with
      | Some last_row =>
          exists before keys sid,
            events
            = (before
                ++ [EvState (Some sid)
                      (checkpoint_of (index self) keys last_row)])%list
            /\ reports before = []
            /\ current_keys self' = Some keys
            /\ state_id self' = Some sid
            /\ saved_state self' = checkpoint_of (index self) keys last_row
            /\ index self' = index self
            /\ last_row !! "__state" = Some (VStr sid)
      | None => reports events = []
      end
  | Ok None => reports events = []
  | Raise _ =>
      reports events = []
      /\ index self' = index self
      /\ saved_state self' = saved_state self
  end.

(** The statement that fetches a batch. *)
Definition fetch_query (batch_size : Z) : string :=
  "FETCH FORWARD " ++ pretty batch_size ++ " FROM cur".

(** The state identifier drawn at the [n]-th draw. *)
Definition drawn_sid (db : Database) (n : nat) : string :=
  UUID.to_str (UUID.uuid4 (db_random db n)).

Definition bump_statements (c : Counters) : Counters :=
  mkCounters (connects c) (S (statements c)) (fetches c) (draws c).

(** The counters after a statement, a fetch and a draw. *)
Definition bump_fetch (c : Counters) : Counters :=
  mkCounters (connects c) (S (statements c)) (S (fetches c)) (S (draws c)).

(** Methods that neither fetch a batch nor draw an identifier. *)
Definition steady {A} (m : M A) : Prop :=
  forall self c,
    fetches (m self c).1.2 = fetches c /\ draws (m self c).1.2 = draws c.

(** The rows one call of [read] returns, by its result: the rows of the
    next fetch, each tagged with the table, the schema and the identifier
    of the next draw.  A call that fails on a database error has fetched
    and drawn nothing. *)
Definition batch_post (db : Database) (self : Postgres) (c : Counters)
    (r : Result (option (list Row))) (self' : Postgres) (c' : Counters)
  : Prop :=
  match r with
  | Ok (Some rows) =>
      exists t schema table,
        py_index (tables self) (index self) = Some t
        /\ split1 "." (value t) = Some (schema, table)
        /\ rows = map (tag_row table schema (drawn_sid db (draws c)))
                    (db_fetch db (fetches c))
        /\ draws c' = S (draws c)
        /\ fetches c' = S (fetches c)
  | Ok None => True
  | Raise e =>
      tables self' = tables self
      /\ index self' = index self
      /\ (is_DatabaseError e = true ->
          draws c' = draws c /\ fetches c' = fetches c)
  end.

(** What the host sees of one call of [read]. *)
Inductive Answer : Type :=
| Batch (rows : list Row)
| TableDone
| NoMoreData
| Failed (e : Exn).

Definition answer (r : Result (option (list Row))) : Answer :=
  match r with
  | Ok (Some []) => TableDone
  | Ok (Some rows) => Batch rows
  | Ok None => NoMoreData
  | Raise e => Failed e
  end.

(** [n] successive calls of [read] by the host: the answers, then the
    instance and the counters they leave. *)
Fixpoint read_many (KEY_STRATEGY : list (list KeyDescriptor -> list KeyDescriptor))
    (db : Database) (n : nat) (self : Postgres) (c : Counters)
  : list Answer * Postgres * Counters :=
  match n with
  | O => ([], self, c)
  | S n' =>
      match read KEY_STRATEGY db None self c with
      | (r, self1, c1, _) =>
          match read_many KEY_STRATEGY db n' self1 c1 with
          | (answers, self2, c2) => (answer r :: answers, self2, c2)
          end
      end
  end.



(** An instance without connection: what [reset] leaves. *)
Definition closed (self : Postgres) : Prop :=
  conn self = None /\ cursor self = None /\ loaded self = 0.


(** The configuration of an instance, which no method writes. *)
Definition same_config (self self' : Postgres) : Prop :=
  tables self' = tables self
  /\ source self' = source self
  /\ inckey self' = inckey self
  /\ incval self' = incval self
  /\ batch_size self' = batch_size self.


(** The instance after the last batch of a table. *)
Definition table_done (self : Postgres) : Postgres :=
  set_saved_state empty_state
    (set_current_keys None
       (set_loaded 0 (set_index (index self + 1) (reset_self self)))).




(** The position after one call of [read], by its result. *)
Definition position_post (self : Postgres) (r : Result (option (list Row)))
    (self' : Postgres) : Prop :=
  match r with
  | Ok (Some []) =>
      index self' = index self + 1
      /\ current_keys self' = None
      /\ saved_state self' = empty_state
      /\ closed self'
  | _ => index self' = index self
  end.

(** When one call of [read] answers that no data is left. *)
Definition exhausted_post (self : Postgres) (c : Counters)
    (r : Result (option (list Row))) (self' : Postgres) (c' : Counters)
    (events : list Event) : Prop :=
  match r with
  | Ok None =>
      Z.of_nat (length (tables self)) <= index self
      /\ self' = self /\ c' = c /\ events = []
  | _ => index self < Z.of_nat (length (tables self))
  end.


(** [batch_size or self.batch_size]. *)
Definition batch_size_of (bs : option Z) (self : Postgres) : Z :=
  match bs with
  | Some n => if n =? 0 then batch_size self else n
  | None => batch_size self
  end.

(** The progress report at the start of an attempt on [table]. *)
Definition progress_of (self : Postgres) (table : string) : Event :=
  let total := Z.of_nat (length (tables self)) in
  EvProgress (index self + 1) total
    ("Reading table " ++ pretty (index self + 1) ++ " ("
       ++ table ++ ") out of " ++ pretty total).

(** The statement that asks for the maximum of a column. *)
Definition max_query (schema table column : string) : string :=
  "SELECT MAX(" ++ dq ++ column ++ dq ++ ") FROM "
    ++ dq ++ schema ++ dq ++ "." ++ dq ++ table ++ dq.

(** The catalog work of opening a cursor when every statement is accepted,
    [n] statements having been sent before: the ordering key chosen, the
    maximum of the incremental column, the number of statements sent
    after it, and the statements in order. *)
Definition introspect
    (KEY_STRATEGY : list (list KeyDescriptor -> list KeyDescriptor))
    (db : Database) (schema table : string) (self : Postgres) (n : nat)
  : list KeyDescriptor * pyval * nat * list Event :=
  let known := default [] (current_keys self) in
  let indexed :=
    match known with
    | [] => db_metadata db n (SQL_GET_KEYS table)
    | _ :: _ => known
    end in
  let n1 := match known with [] => S n | _ :: _ => n end in
  let candidates :=
    match indexed with
    | [] => take 1 (db_metadata db n1 (SQL_GET_COLUMNS table))
    | _ :: _ => indexed
    end in
  let n2 := match indexed with [] => S n1 | _ :: _ => n1 end in
  let keys := key_strategy KEY_STRATEGY candidates in
  let query := max_query schema table (inckey self) in
  (keys,
   (if str_truthy (inckey self) then db_max db n2 query else VNone),
   (if str_truthy (inckey self) then S n2 else n2),
   (match known with
    | [] => [EvExecute (SQL_GET_KEYS table)]
    | _ :: _ => []
    end
      ++ match indexed with
         | [] => [EvExecute (SQL_GET_COLUMNS table)]
         | _ :: _ => []
         end
      ++ (if str_truthy (inckey self) then [EvExecute query] else []))%list).

(** The statement that declares the cursor of a table. *)
Definition declare_query (schema table : string) (self : Postgres)
    (keys : list KeyDescriptor) (max_value : pyval) : string :=
  "DECLARE cur CURSOR FOR "
    ++ get_query schema table (inckey self) (incval self) keys max_value
         (last_value (saved_state self)).

(** The end of an attempt whose FETCH is accepted, from the instance [s1]
    with its cursor open, after the events [before]. *)
Definition finish_outcome (db : Database) (size : Z) (schema table : string)
    (s1 : Postgres) (c1 : Counters) (before : list Event)
  : Result (option (list Row)) * Postgres * Counters * list Event :=
  let sid := drawn_sid db (draws c1) in
  let rows := map (tag_row table schema sid) (db_fetch db (fetches c1)) in
  let s2 :=
    set_loaded (loaded s1 + Z.of_nat (length rows))
      (set_state_id (Some sid) s1) in
  let events := (before ++ [EvExecute (fetch_query size)])%list in
  match last rows with
  | None =>
      (Ok (Some []), table_done s2, bump_fetch c1,
       (events ++ EvCursorClose
          :: (if conn s1 is Some _ then [EvRollback; EvConnClose] else []))%list)
  | Some last_row =>
      match current_keys s1 with
      | Some keys =>
          (Ok (Some rows),
           set_saved_state (checkpoint_of (index s1) keys last_row) s2,
           bump_fetch c1,
           (events ++ [EvState (Some sid)
                         (checkpoint_of (index s1) keys last_row)])%list)
      | None =>
          (Raise (TypeError "argument 2 to map() must support iteration"),
           s2, bump_fetch c1, events)
      end
  end.

(** ** The clauses as the specification words them *)

Module Spec.

(** The resume predicate: the tuple of the state's column names against
    the tuple of its values as single-quoted literals, compared with [>=];
    the parentheses are left out exactly when there is one column. *)
Definition resume_predicate (state : OrderedDict) : string :=
  let cols := join "," (map fst state) in
  let vals := join "," (map (fun v => "'" ++ str v ++ "'") (map snd state)) in
  if Nat.eqb (length state) 1
  then cols ++ " >= " ++ vals
  else "(" ++ cols ++ ") >= (" ++ vals ++ ")".

(** The columns of ORDER BY: the ordering key in its order, then the
    incremental column when it is set and not among them. *)
Definition order_columns (inckey : string) (keys : list string) : list string :=
  if bool_decide (inckey ≠ "" ∧ inckey ∉ keys) then (keys ++ [inckey])%list
  else keys.

(** The exception [connect] raises for a failure [e] of the driver. *)
Definition classified (user : string) (e : Exn) : Exn :=
  match e with
  | OperationalError message =>
      if str_in "authentication failed" message
      then PanoplyException ("Login failed for user: " ++ user) false
      else e
  | _ => e
  end.

End Spec.

(** ** Facts about strings *)

Lemma str_app_assoc (a b c : string) : (a ++ b) ++ c = a ++ b ++ c.
Proof.
  induction a as [|x a IH]; [reflexivity |].
  change (String x ((a ++ b) ++ c) = String x (a ++ b ++ c)). now f_equal.
Qed.

Lemma str_app_empty_r (a : string) : a ++ "" = a.
Proof.
  induction a as [|x a IH]; [reflexivity |].
  change (String x (a ++ "") = String x a). now f_equal.
Qed.

Lemma str_truthy_app_r (a b : string) :
  str_truthy b = true -> str_truthy (a ++ b) = true.
Proof. destruct a; simpl; [trivial | reflexivity]. Qed.

Lemma str_truthy_app_l (a b : string) :
  str_truthy a = true -> str_truthy (a ++ b) = true.
Proof. destruct a; simpl; [discriminate | reflexivity]. Qed.

Lemma str_truthy_false (a : string) : str_truthy a = false -> a = "".
Proof. destruct a; [reflexivity | discriminate]. Qed.

(** ** The query builder: WHERE *)

Lemma get_query_resume_spec (st : OrderedDict) :
  st <> [] -> get_query_resume (Some st) = Spec.resume_predicate st.
Proof.
  intros Hne. destruct st as [|a [|b l]]; [congruence | reflexivity |].
  unfold get_query_resume, Spec.resume_predicate.
  replace (1 <? Z.of_nat (length (a :: b :: l))) with true
    by (symmetry; apply Z.ltb_lt; cbn [length]; lia).
  reflexivity.
Qed.

Lemma resume_predicate_truthy (st : OrderedDict) :
  str_truthy (Spec.resume_predicate st) = true.
Proof.
  unfold Spec.resume_predicate.
  destruct (Nat.eqb (length st) 1); [|reflexivity].
  apply str_truthy_app_r. reflexivity.
Qed.

(** C1.  With a non-empty resume state the statement reads: head, WHERE,
    the resume predicate over the state's columns in their stored order
    and their values as quoted literals under [>=] (parenthesised unless
    there is one column), then at most the ANDed incremental predicate,
    then the ORDER BY clause.  For schema public, table foo, key
    pk1, pk2 and state pk1 = '1', pk2 = '1994-09-16' without incremental
    column the text is the expected one. *)
Theorem get_query_resume_predicate
    (schema table inckey : string) (incval max_value : pyval)
    (keys : list KeyDescriptor) (st : OrderedDict) :
  st <> [] ->
  (exists rest,
     get_query schema table inckey incval keys max_value (Some st)
       = select_from schema table ++ " WHERE " ++ Spec.resume_predicate st
           ++ rest ++ get_query_orderby inckey keys
     /\ (rest = ""
         \/ rest = " AND " ++ get_query_inc_clause inckey incval max_value))
  /\ (forall pk : list KeyDescriptor,
        map attname pk = ["pk1"; "pk2"] ->
        get_query "public" "foo" "" (VStr "") pk VNone
          (Some [("pk1", VStr "1"); ("pk2", VStr "1994-09-16")])
        = "SELECT * FROM " ++ dq ++ "public" ++ dq ++ "." ++ dq ++ "foo" ++ dq
            ++ " WHERE (pk1,pk2) >= ('1','1994-09-16') ORDER BY pk1,pk2").
Proof.
  intros Hne. split.
  - unfold get_query, get_query_where_clause, get_query_where.
    rewrite (get_query_resume_spec st Hne).
    pose proof (resume_predicate_truthy st) as Ht.
    destruct (str_truthy inckey && truthy incval
              && negb (str_in inckey (Spec.resume_predicate st))).
    + exists (" AND " ++ get_query_inc_clause inckey incval max_value).
      split; [|now right].
      rewrite Ht. rewrite str_app_assoc.
      rewrite (str_truthy_app_l _ _ Ht).
      now rewrite !str_app_assoc, str_app_empty_r.
    + exists "". split; [|now left].
      rewrite Ht. now rewrite !str_app_assoc, str_app_empty_r.
  - intros pk Hpk.
    destruct pk as [|k1 [|k2 [|k3 pk]]]; try discriminate.
    injection Hpk as H1 H2.
    unfold get_query, get_query_orderby. cbn [map]. rewrite H1, H2.
    reflexivity.
Qed.

Lemma get_query_resume_predicate_witness :
  exists rest,
    get_query "public" "test" "id" (VInt 2) [] VNone (Some [("pk1", VStr "1")])
      = select_from "public" "test" ++ " WHERE "
          ++ Spec.resume_predicate [("pk1", VStr "1")]
          ++ rest ++ get_query_orderby "id" []
    /\ (rest = ""
        \/ rest = " AND " ++ get_query_inc_clause "id" (VInt 2) VNone).
Proof.
  apply (get_query_resume_predicate "public" "test" "id" (VInt 2) VNone []
           [("pk1", VStr "1")]).
  discriminate.
Defined.

(** C5, at an input where the incremental column is not a column of the
    resume state but its name occurs in a rendered value: the test
    [inckey not in where] is a substring test on the text of the resume
    predicate, and the incremental predicate is dropped. *)
Theorem get_query_incremental_substring :
  let state := [("pk1", VStr "david")] in
  let keys := [mkKey "pk1" "text" 1 true true "foo_pkey"] in
  list_in "id" (od_keys state) = false
  /\ get_query "public" "foo" "id" (VStr "5") keys VNone (Some state)
     = select_from "public" "foo" ++ " WHERE pk1 >= 'david' ORDER BY pk1,id"
  /\ str_in "id >= '5'"
       (get_query "public" "foo" "id" (VStr "5") keys VNone (Some state))
     = false.
Proof. repeat split; vm_compute; reflexivity. Qed.

(** ** The query builder: ORDER BY *)

Lemma order_condition (inckey : string) (ks : list string) :
  str_truthy inckey && negb (list_in inckey ks)
  = bool_decide (inckey ≠ "" ∧ inckey ∉ ks).
Proof.
  unfold str_truthy, list_in.
  destruct (String.eqb_spec inckey "") as [He|He]; simpl.
  - symmetry. apply bool_decide_eq_false. tauto.
  - destruct (decide (inckey ∈ ks)) as [Hin|Hin].
    + rewrite (bool_decide_eq_true_2 _ Hin). simpl.
      symmetry. apply bool_decide_eq_false. tauto.
    + rewrite (bool_decide_eq_false_2 _ Hin). simpl.
      symmetry. apply bool_decide_eq_true. tauto.
Qed.

Lemma get_query_orderby_spec (inckey : string) (keys : list KeyDescriptor) :
  get_query_orderby inckey keys
  = match keys with
    | [] => ""
    | _ :: _ =>
        " ORDER BY " ++ join "," (Spec.order_columns inckey (map attname keys))
    end.
Proof.
  destruct keys as [|k keys]; [reflexivity |].
  unfold get_query_orderby, Spec.order_columns.
  now rewrite order_condition.
Qed.

Lemma order_columns_NoDup (inckey : string) (ks : list string) :
  NoDup ks -> NoDup (Spec.order_columns inckey ks).
Proof.
  intros Hnd. unfold Spec.order_columns. case_bool_decide as Hc; [|exact Hnd].
  destruct Hc as [_ Hnotin]. apply NoDup_app. split; [exact Hnd |].
  split; [| apply NoDup_singleton].
  intros x Hx Hx'. apply list_elem_of_singleton in Hx'. now subst.
Qed.

(** C6.  The statement ends in the ORDER BY clause over the key columns in
    their order, followed by the incremental column exactly when it is set
    and not among them; the clause is absent when there is no key; the
    incremental column is never listed twice; and the text is a function of
    the arguments. *)
Theorem get_query_order_by
    (schema table inckey : string) (incval max_value : pyval)
    (keys : list KeyDescriptor) (state : option OrderedDict) :
  get_query schema table inckey incval keys max_value state
    = select_from schema table
        ++ get_query_where_clause inckey incval max_value state
        ++ match keys with
           | [] => ""
           | _ :: _ =>
               " ORDER BY "
                 ++ join "," (Spec.order_columns inckey (map attname keys))
           end
  /\ get_query schema table "" incval [] max_value state
     = select_from schema table
         ++ match state with
            | Some (c :: st) => " WHERE " ++ Spec.resume_predicate (c :: st)
            | _ => ""
            end
  /\ (inckey ∈ map attname keys ->
      Spec.order_columns inckey (map attname keys) = map attname keys)
  /\ (NoDup (map attname keys) ->
      NoDup (Spec.order_columns inckey (map attname keys)))
  /\ (forall schema' table' inckey' incval' keys' max_value' state',
        (schema, table, inckey, incval, keys, max_value, state)
        = (schema', table', inckey', incval', keys', max_value', state') ->
        get_query schema table inckey incval keys max_value state
        = get_query schema' table' inckey' incval' keys' max_value' state').
Proof.
  split; [| split; [| split; [| split]]].
  - unfold get_query. now rewrite get_query_orderby_spec, str_app_empty_r.
  - unfold get_query, get_query_where_clause, get_query_where.
    cbn [str_truthy String.eqb negb andb get_query_orderby].
    rewrite !str_app_empty_r.
    destruct state as [[|c st]|]; [reflexivity | | reflexivity].
    rewrite get_query_resume_spec by discriminate.
    now rewrite resume_predicate_truthy.
  - intros Hin. unfold Spec.order_columns.
    rewrite bool_decide_eq_false_2; [reflexivity | tauto].
  - apply order_columns_NoDup.
  - intros ? ? ? ? ? ? ? Heq. now inversion Heq.
Qed.

Lemma get_query_order_by_witness :
  Spec.order_columns "pk2"
    (map attname [mkKey "pk1" "" 2 true true "pk"; mkKey "pk2" "" 2 true true "pk"])
  = ["pk1"; "pk2"]
  /\ NoDup (Spec.order_columns "pk3"
       (map attname [mkKey "pk1" "" 2 true true "pk"; mkKey "pk2" "" 2 true true "pk"])).
Proof.
  pose proof (get_query_order_by "public" "test" "pk2" VNone VNone
                [mkKey "pk1" "" 2 true true "pk"; mkKey "pk2" "" 2 true true "pk"]
                None) as (_ & _ & Hin & _).
  pose proof (get_query_order_by "public" "test" "pk3" VNone VNone
                [mkKey "pk1" "" 2 true true "pk"; mkKey "pk2" "" 2 true true "pk"]
                None) as (_ & _ & _ & Hnd & _).
  split.
  - apply Hin. compute_done.
  - apply Hnd. compute_done.
Defined.

(** ** The connection manager *)

Lemma rsplit1_absent (c : ascii) (s : string) :
  has_char c s = false -> rsplit1 c s = None.
Proof.
  induction s as [|a s IH]; [reflexivity |].
  cbn [has_char rsplit1]. intros H.
  apply orb_false_iff in H as [Ha Hs].
  now rewrite (IH Hs), Ha.
Qed.

Lemma rsplit1_last (c : ascii) (a b : string) :
  has_char c b = false -> rsplit1 c (a ++ String c b) = Some (a, b).
Proof.
  intros Hb. induction a as [|x a IH].
  - change (rsplit1 c (String c b) = Some ("", b)).
    cbn [rsplit1]. now rewrite (rsplit1_absent c b Hb), Ascii.eqb_refl.
  - change (rsplit1 c (String x (a ++ String c b)) = Some (String x a, b)).
    cbn [rsplit1]. now rewrite IH.
Qed.

Lemma has_char_app (c : ascii) (a b : string) :
  has_char c (a ++ b) = has_char c a || has_char c b.
Proof.
  induction a as [|x a IH]; [reflexivity |].
  change (has_char c (String x (a ++ b))
          = has_char c (String x a) || has_char c b).
  cbn [has_char]. now rewrite IH, orb_assoc.
Qed.

(** C9.  For an address [host/database] or [host:port/database] (the
    database name being what follows the last slash, the port what
    follows the last colon before it), [connect] calls the driver with that
    host and database and with the port as a number, 5432 when none is
    given.  A failure of the driver is raised as it is, except an
    operational error whose message contains "authentication failed",
    which is replaced by the non-retryable login error. *)
Theorem connect_address (db : Database) (src : Source)
    (host dbname : string) (port : option string)
    (self : Postgres) (c : Counters) :
  has_char "/" dbname = false ->
  match port with
  | None => has_char ":" host = false
  | Some p => has_char ":" p = false /\ is_Some (int_of_str p)
  end ->
  src_addr src
    = host ++ match port with None => "" | Some p => ":" ++ p end
        ++ "/" ++ dbname ->
  let args :=
    mkArgs host
      match port with None => 5432 | Some p => default 0 (int_of_str p) end
      (src_user src) (src_password src) dbname CONNECT_TIMEOUT in
  connect db src self c
  = (match db_connect db (connects c) args with
     | None => Ok (connects c, connects c)
     | Some e => Raise (Spec.classified (src_user src) e)
     end,
     self,
     mkCounters (S (connects c)) (statements c) (fetches c) (draws c),
     [EvConnect args]).
Proof.
  intros Hdb Hport Haddr args. unfold connect, parse_addr. rewrite Haddr.
  replace (host ++ match port with None => "" | Some p => ":" ++ p end
             ++ "/" ++ dbname)
    with ((host ++ match port with None => "" | Some p => ":" ++ p end)
            ++ String "/" dbname)
    by now rewrite str_app_assoc.
  rewrite (rsplit1_last "/" _ dbname Hdb).
  destruct port as [p|].
  - destruct Hport as [Hp [n Hn]].
    rewrite has_char_app.
    replace (has_char ":" (":" ++ p)) with true by reflexivity.
    rewrite orb_true_r.
    change (":" ++ p) with (String ":" p).
    rewrite (rsplit1_last ":" host p Hp). subst args. rewrite Hn.
    cbn [default].
    destruct (db_connect db (connects c) _) as [[]|]; reflexivity.
  - rewrite str_app_empty_r, Hport. subst args.
    destruct (db_connect db (connects c) _) as [[]|]; reflexivity.
Qed.

Lemma connect_address_witness :
  connect Session.database
    (mkSource "test.database.name:5439/foobar" "test" "testpassword"
       None None None None None None) (init Session.src) fresh
  = (Ok (0%nat, 0%nat), init Session.src, mkCounters 1 0 0 0,
     [EvConnect (mkArgs "test.database.name" 5439 "test" "testpassword"
                   "foobar" 15)]).
Proof.
  apply (connect_address Session.database
           (mkSource "test.database.name:5439/foobar" "test" "testpassword"
              None None None None None None)
           "test.database.name" "foobar" (Some "5439")
           (init Session.src) fresh).
  - reflexivity.
  - split; [reflexivity | exists 5439; reflexivity].
  - reflexivity.
Defined.

(** ** The scanner: one attempt *)

Section Scanner.

Variable KEY_STRATEGY : list (list KeyDescriptor -> list KeyDescriptor).
Variable db : Database.

Lemma reports_app (a b : list Event) :
  reports (a ++ b)%list = (reports a ++ reports b)%list.
Proof. unfold reports. apply flat_map_app. Qed.

(** [execute] on an open cursor: one statement is sent; a database error
    resets the handles and the row counter. *)
Lemma execute_open (query : string) (self : Postgres) (c : Counters) (k : nat) :
  cursor self = Some k ->
  execute db query self c
  = (match db_execute db (statements c) query with
     | None => Ok tt
     | Some e => Raise e
     end,
     match db_execute db (statements c) query with
     | Some e => if is_DatabaseError e then reset_self self else self
     | None => self
     end,
     mkCounters (connects c) (S (statements c)) (fetches c) (draws c),
     [EvExecute query]).
Proof.
  intros Hk. unfold execute. rewrite Hk.
  destruct (db_execute db (statements c) query) as [e|]; [|reflexivity].
  destruct (is_DatabaseError e); reflexivity.
Qed.

Lemma execute_reports (query : string) (self : Postgres) (c : Counters) :
  reports (execute db query self c).2 = [].
Proof.
  unfold execute. destruct (cursor self); [|reflexivity].
  destruct (db_execute db (statements c) query) as [e|]; [|reflexivity].
  destruct (is_DatabaseError e); reflexivity.
Qed.

Lemma connect_reports (src : Source) (self : Postgres) (c : Counters) :
  reports (connect db src self c).2 = [].
Proof.
  unfold connect. destruct (parse_addr (src_addr src)) as [[[h p] d]|e];
    [|reflexivity].
  destruct (db_connect db (connects c) _) as [[]|]; reflexivity.
Qed.


Lemma quiet_bind {A B} (m : M A) (f : A -> M B) :
  quiet m -> (forall a, quiet (f a)) -> quiet (bind m f).
Proof.
  intros Hm Hf self c. unfold bind.
  specialize (Hm self c).
  destruct (m self c) as [[[[a|e] s1] c1] ev1]; [|exact Hm].
  specialize (Hf a s1 c1).
  destruct (f a s1 c1) as [[[r s2] c2] ev2].
  cbn [snd] in *. now rewrite reports_app, Hm, Hf.
Qed.

Lemma quiet_ret {A} (a : A) : quiet (ret a).
Proof. intros self c. reflexivity. Qed.

Lemma quiet_raise {A} (e : Exn) : quiet (@raise A e).
Proof. intros self c. reflexivity. Qed.

Lemma quiet_get_self : quiet get_self.
Proof. intros self c. reflexivity. Qed.

Lemma quiet_modify (f : Postgres -> Postgres) : quiet (modify f).
Proof. intros self c. reflexivity. Qed.

Lemma quiet_execute (query : string) : quiet (execute db query).
Proof. intros self c. apply execute_reports. Qed.

Lemma quiet_connect (src : Source) : quiet (connect db src).
Proof. intros self c. apply connect_reports. Qed.

Lemma quiet_get_table_metadata (sql : string -> string) (table : string) :
  quiet (get_table_metadata db sql table).
Proof.
  intros self c. unfold get_table_metadata.
  pose proof (execute_reports (sql table) self c) as H.
  destruct (execute db (sql table) self c) as [[[[a|e] s1] c1] ev1]; exact H.
Qed.

Lemma quiet_get_max_value (schema table column : string) :
  quiet (get_max_value db schema table column).
Proof.
  intros self c. unfold get_max_value.
  destruct (negb (str_truthy column)); [reflexivity |].
  match goal with
  | |- context [execute db ?q self c] =>
      pose proof (execute_reports q self c) as H;
      destruct (execute db q self c) as [[[[a|e] s1] c1] ev1]; exact H
  end.
Qed.

Lemma quiet_close : quiet close.
Proof.
  unfold close. apply quiet_bind; [apply quiet_get_self |]. intros self.
  apply quiet_bind.
  { destruct (cursor self); [intros ? ?; reflexivity | apply quiet_ret]. }
  intros _. apply quiet_bind; [| intros _; apply quiet_modify].
  destruct (conn self); [| apply quiet_ret].
  intros ? ?; reflexivity.
Qed.

Lemma quiet_open_cursor (schema table : string) :
  quiet (open_cursor KEY_STRATEGY db schema table).
Proof.
  unfold open_cursor.
  repeat first
    [ apply quiet_get_self | apply quiet_modify | apply quiet_connect
    | apply quiet_execute | apply quiet_get_max_value | apply quiet_ret
    | apply quiet_get_table_metadata
    | apply quiet_bind
    | match goal with |- quiet (match ?x with _ => _ end) => destruct x end
    | intros ? ].
Qed.


Lemma frame_refl (self : Postgres) : frame self self.
Proof. repeat split. Qed.

Lemma frame_trans (a b c : Postgres) : frame a b -> frame b c -> frame a c.
Proof.
  unfold frame. intros (?&?&?&?&?&?&?&?) (?&?&?&?&?&?&?&?).
  repeat split; congruence.
Qed.

Lemma framed_bind {A B} (m : M A) (f : A -> M B) :
  framed m -> (forall a, framed (f a)) -> framed (bind m f).
Proof.
  intros Hm Hf self c. unfold bind.
  specialize (Hm self c).
  destruct (m self c) as [[[[a|e] s1] c1] ev1]; [|exact Hm].
  specialize (Hf a s1 c1).
  destruct (f a s1 c1) as [[[r s2] c2] ev2].
  cbn [fst snd] in *. now apply frame_trans with s1.
Qed.

Lemma framed_ret {A} (a : A) : framed (ret a).
Proof. intros self c. apply frame_refl. Qed.

Lemma framed_get_self : framed get_self.
Proof. intros self c. apply frame_refl. Qed.

Lemma framed_execute (query : string) : framed (execute db query).
Proof.
  intros self c. unfold execute. destruct (cursor self); [|apply frame_refl].
  destruct (db_execute db (statements c) query) as [e|]; [|apply frame_refl].
  destruct (is_DatabaseError e); repeat split.
Qed.

Lemma framed_connect (src : Source) : framed (connect db src).
Proof.
  intros self c. unfold connect.
  destruct (parse_addr (src_addr src)) as [[[h p] d]|e]; [|apply frame_refl].
  destruct (db_connect db (connects c) _) as [[]|]; apply frame_refl.
Qed.

Lemma framed_get_table_metadata (sql : string -> string) (table : string) :
  framed (get_table_metadata db sql table).
Proof.
  intros self c. unfold get_table_metadata.
  pose proof (framed_execute (sql table) self c) as H.
  destruct (execute db (sql table) self c) as [[[[a|e] s1] c1] ev1]; exact H.
Qed.

Lemma framed_get_max_value (schema table column : string) :
  framed (get_max_value db schema table column).
Proof.
  intros self c. unfold get_max_value.
  destruct (negb (str_truthy column)); [apply frame_refl |].
  match goal with
  | |- context [execute db ?q self c] =>
      pose proof (framed_execute q self c) as H;
      destruct (execute db q self c) as [[[[a|e] s1] c1] ev1]; exact H
  end.
Qed.

Lemma framed_set_handles (cn cu : option nat) : framed (modify (set_handles cn cu)).
Proof. intros self c. repeat split. Qed.

Lemma framed_set_current_keys (ks : option (list KeyDescriptor)) :
  framed (modify (set_current_keys ks)).
Proof. intros self c. repeat split. Qed.

Lemma framed_open_cursor (schema table : string) :
  framed (open_cursor KEY_STRATEGY db schema table).
Proof.
  unfold open_cursor.
  repeat first
    [ apply framed_get_self | apply framed_set_handles
    | apply framed_set_current_keys | apply framed_connect
    | apply framed_execute | apply framed_get_max_value | apply framed_ret
    | apply framed_get_table_metadata
    | apply framed_bind
    | match goal with |- framed (match ?x with _ => _ end) => destruct x end
    | intros ? ].
Qed.


(** ** The pieces of [read] *)

Lemma fetch_batch_open (bs : Z) (schema table : string)
    (self : Postgres) (c : Counters) (k : nat) :
  cursor self = Some k ->
  fetch_batch db bs schema table self c
  = match db_execute db (statements c) (fetch_query bs) with
    | None =>
        let result :=
          map (tag_row table schema (drawn_sid db (draws c)))
            (db_fetch db (fetches c)) in
        (Ok result,
         set_loaded (loaded self + Z.of_nat (length result))
           (set_state_id (Some (drawn_sid db (draws c))) self),
         bump_fetch c, [EvExecute (fetch_query bs)])
    | Some e =>
        (Raise e, if is_DatabaseError e then reset_self self else self,
         bump_statements c, [EvExecute (fetch_query bs)])
    end.
Proof.
  intros Hk. unfold fetch_batch, bind. fold (fetch_query bs).
  rewrite (execute_open _ _ _ _ Hk).
  destruct (db_execute db (statements c) (fetch_query bs)) as [e|];
    reflexivity.
Qed.

Lemma fetch_batch_closed (bs : Z) (schema table : string)
    (self : Postgres) (c : Counters) :
  cursor self = None ->
  exists e, fetch_batch db bs schema table self c = (Raise e, self, c, []).
Proof.
  intros Hk. unfold fetch_batch, bind, execute. rewrite Hk. eauto.
Qed.

Lemma finish_batch_empty (self : Postgres) (c : Counters) :
  finish_batch [] self c
  = (Ok (Some []),
     set_saved_state empty_state
       (set_current_keys None
          (set_loaded 0 (set_index (index self + 1) (reset_self self)))),
     c,
     ((if cursor self is Some _ then [EvCursorClose] else [])
        ++ (if conn self is Some _ then [EvRollback; EvConnClose] else []))%list).
Proof.
  unfold finish_batch, close, bind, get_self, reset, modify, emit, ret.
  cbn [last]. destruct (cursor self), (conn self); reflexivity.
Qed.

Lemma finish_batch_report (result : list Row) (last_row : Row)
    (self : Postgres) (c : Counters) :
  last result = Some last_row ->
  finish_batch result self c
  = match current_keys self with
    | Some keys =>
        (Ok (Some result),
         set_saved_state (checkpoint_of (index self) keys last_row) self, c,
         [EvState (state_id self) (checkpoint_of (index self) keys last_row)])
    | None =>
        (Raise (TypeError "argument 2 to map() must support iteration"),
         self, c, [])
    end.
Proof.
  intros Hl. unfold finish_batch. rewrite Hl.
  unfold _report_state, bind, get_self, modify, emit, ret, raise.
  destruct (current_keys self); reflexivity.
Qed.


(** [read] on a table in range, as the sequence of its three steps. *)
Lemma read_body_steps (bs : option Z) (self : Postgres) (c : Counters)
    (t : TableRef) (schema table : string) :
  (Z.of_nat (length (tables self)) <=? index self) = false ->
  py_index (tables self) (index self) = Some t ->
  split1 "." (value t) = Some (schema, table) ->
  let total := Z.of_nat (length (tables self)) in
  let progress :=
    EvProgress (index self + 1) total
      ("Reading table " ++ pretty (index self + 1) ++ " ("
         ++ table ++ ") out of " ++ pretty total) in
  let size :=
    match bs with
    | Some n => if n =? 0 then batch_size self else n
    | None => batch_size self
    end in
  read_body KEY_STRATEGY db bs self c
  = match (if cursor self is Some _ then ret tt
           else open_cursor KEY_STRATEGY db schema table) self c with
    | (Raise e, s1, c1, ev1) => (Raise e, s1, c1, progress :: ev1)
    | (Ok _, s1, c1, ev1) =>
        match fetch_batch db size schema table s1 c1 with
        | (Raise e, s2, c2, ev2) =>
            (Raise e, s2, c2, progress :: (ev1 ++ ev2)%list)
        | (Ok result, s2, c2, ev2) =>
            match finish_batch result s2 c2 with
            | (r, s3, c3, ev3) =>
                (r, s3, c3, progress :: (ev1 ++ ev2 ++ ev3)%list)
            end
        end
    end.
Proof.
  intros Hin Ht Hsplit total progress size. subst total progress.
  unfold read_body. unfold bind at 1. unfold get_self at 1.
  rewrite Hin, Ht, Hsplit. fold size.
  unfold bind, emit.
  destruct ((if cursor self is Some _ then ret ()
             else open_cursor KEY_STRATEGY db schema table) self c)
    as [[[[u|e] s1] c1] ev1]; [|reflexivity].
  destruct (fetch_batch db size schema table s1 c1)
    as [[[[result|e] s2] c2] ev2]; [|reflexivity].
  destruct (finish_batch result s2 c2) as [[[r s3] c3] ev3].
  reflexivity.
Qed.

Lemma last_map {A B} (f : A -> B) (l : list A) :
  last (map f l) = option_map f (last l).
Proof.
  induction l as [|x [|y l] IH]; [reflexivity | reflexivity |].
  exact IH.
Qed.

Lemma tag_row_state (table schema sid : string) (r : Row) :
  tag_row table schema sid r !! "__state" = Some (VStr sid).
Proof.
  unfold tag_row.
  rewrite lookup_insert_ne by discriminate.
  rewrite lookup_insert_ne by discriminate.
  apply lookup_insert_eq.
Qed.


Lemma ensure_cursor_facts (schema table : string) (self : Postgres)
    (c : Counters) r s1 c1 ev1 :
  (if cursor self is Some _ then ret tt
   else open_cursor KEY_STRATEGY db schema table) self c = (r, s1, c1, ev1) ->
  reports ev1 = [] /\ frame self s1.
Proof.
  destruct (cursor self).
  - intros H. injection H as <- <- <- <-. split; [reflexivity | apply frame_refl].
  - intros H.
    pose proof (quiet_open_cursor schema table self c) as Hq.
    pose proof (framed_open_cursor schema table self c) as Hf.
    rewrite H in Hq, Hf. now split.
Qed.

(** One attempt of [read] reports the checkpoint of a non-empty batch as
    its last event, and nothing otherwise. *)
Lemma read_body_post (bs : option Z) (self : Postgres) (c : Counters) :
  match read_body KEY_STRATEGY db bs self c with
  | (r, self', _, events) => read_post self r self' events
  end.
Proof.
  destruct (Z.of_nat (length (tables self)) <=? index self) eqn:Hin.
  { unfold read_body, bind, get_self. rewrite Hin. reflexivity. }
  destruct (py_index (tables self) (index self)) as [t|] eqn:Ht.
  2:{ unfold read_body, bind, get_self. rewrite Hin, Ht. repeat split. }
  destruct (split1 "." (value t)) as [[schema table]|] eqn:Hsplit.
  2:{ unfold read_body, bind, get_self. rewrite Hin, Ht, Hsplit.
      repeat split. }
  rewrite (read_body_steps bs self c t schema table Hin Ht Hsplit).
  set (size := match bs with
               | Some n => if n =? 0 then batch_size self else n
               | None => batch_size self
               end).
  destruct ((if cursor self is Some _ then ret ()
             else open_cursor KEY_STRATEGY db schema table) self c)
    as [[[r1 s1] c1] ev1] eqn:Hens.
  apply ensure_cursor_facts in Hens as [Hq1 Hf1].
  pose proof Hf1 as (Hidx & _ & _ & Hsaved & _).
  destruct r1 as [u|e]; [| cbn [read_post reports flat_map app]; auto].
  destruct (cursor s1) as [k|] eqn:Hcur.
  2:{ destruct (fetch_batch_closed size schema table s1 c1 Hcur) as [e ->].
      cbn [read_post]. rewrite app_nil_r. cbn [reports flat_map app].
      auto. }
  rewrite (fetch_batch_open size schema table s1 c1 k Hcur).
  destruct (db_execute db (statements c1) (fetch_query size)) as [e|].
  { cbn [read_post]. change (reports (_ :: ?l)) with (reports l).
    rewrite reports_app, Hq1. split; [reflexivity |].
    destruct (is_DatabaseError e); auto. }
  cbv zeta.
  set (sid := drawn_sid db (draws c1)).
  set (result := map (tag_row table schema sid) (db_fetch db (fetches c1))).
  set (s2 := set_loaded _ _).
  destruct (last result) as [last_row|] eqn:Hlast.
  - rewrite (finish_batch_report result last_row s2 (bump_fetch c1) Hlast).
    change (current_keys s2) with (current_keys s1).
    change (index s2) with (index s1). change (state_id s2) with (Some sid).
    destruct (current_keys s1) as [keys|] eqn:Hkeys.
    + cbn [read_post]. rewrite Hlast.
      exists (EvProgress (index self + 1) (Z.of_nat (length (tables self)))
                ("Reading table " ++ pretty (index self + 1) ++ " ("
                   ++ table ++ ") out of "
                   ++ pretty (Z.of_nat (length (tables self))))
                :: ev1 ++ [EvExecute (fetch_query size)])%list, keys, sid.
      rewrite Hidx. repeat split.
      * cbn [app]. now rewrite <- app_assoc.
      * change (reports (_ :: ?l)) with (reports l).
        now rewrite reports_app, Hq1.
      * exact Hkeys.
      * exact Hidx.
      * subst result. rewrite last_map in Hlast.
        destruct (last (db_fetch db (fetches c1))) as [raw|]; [|discriminate].
        injection Hlast as <-. apply tag_row_state.
    + cbn [read_post]. rewrite app_nil_r.
      change (reports (_ :: ?l)) with (reports l).
      rewrite reports_app, Hq1. auto.
  - apply last_None in Hlast. rewrite Hlast, finish_batch_empty.
    cbn [read_post last].
    change (reports (_ :: ?l)) with (reports l).
    rewrite !reports_app, Hq1.
    destruct (cursor s2), (conn s2); reflexivity.
Qed.


(** ** The decorated [read] *)

Lemma on_exception_post (bs : option Z) (remaining tries : nat)
    (self : Postgres) (c : Counters) :
  match on_exception remaining tries (read_body KEY_STRATEGY db bs) self c with
  | (r, self', _, events) => read_post self r self' events
  end.
Proof.
  revert tries self c.
  induction remaining as [|remaining IH]; intros tries self c; cbn [on_exception].
  - pose proof (read_body_post bs self c) as H.
    destruct (read_body KEY_STRATEGY db bs self c) as [[[[a|e] s1] c1] ev1];
      exact H.
  - pose proof (read_body_post bs self c) as H.
    destruct (read_body KEY_STRATEGY db bs self c) as [[[[a|e] s1] c1] ev1];
      [exact H |].
    destruct (is_DatabaseError e); [| exact H].
    destruct H as (Hq & Hidx & Hsaved).
    specialize (IH (S tries) s1 c1).
    destruct (on_exception remaining (S tries) (read_body KEY_STRATEGY db bs)
                s1 c1) as [[[r s2] c2] ev2].
    assert (Hcons : forall l, reports (ev1 ++ EvBackoff tries :: l)%list
                              = reports l).
    { intros l. rewrite reports_app, Hq. reflexivity. }
    destruct r as [[rows|]|e'].
    + cbn [read_post] in *. destruct (last rows) as [last_row|].
      * destruct IH as (before & keys & sid & -> & Hb & Hk & Hs & Hsv & Hi & Hl).
        exists (ev1 ++ EvBackoff tries :: before)%list, keys, sid.
        rewrite <- Hidx.
        repeat split;
          first [ assumption | congruence | now rewrite Hcons
                | now rewrite <- app_assoc, <- app_comm_cons ].
      * now rewrite Hcons.
    + cbn [read_post] in *. now rewrite Hcons.
    + cbn [read_post] in *. destruct IH as (Hq2 & Hi & Hsv).
      rewrite Hcons. repeat split; congruence.
Qed.

Lemma od_set_fresh (k : string) (v : pyval) (d : OrderedDict) :
  k ∉ map fst d -> od_set k v d = (d ++ [(k, v)])%list.
Proof.
  induction d as [|[k' v'] d IH]; intros Hk; [reflexivity |].
  cbn [od_set app]. cbn [map fst] in Hk.
  apply not_elem_of_cons in Hk as [Hne Hk].
  destruct (String.eqb_spec k' k) as [->|_]; [congruence |].
  now rewrite IH.
Qed.

Lemma od_of_pairs_fresh (pairs acc : list (string * pyval)) :
  NoDup (map fst (acc ++ pairs)%list) ->
  fold_left (fun d kv => od_set (fst kv) (snd kv) d) pairs acc
  = (acc ++ pairs)%list.
Proof.
  revert acc. induction pairs as [|[k v] pairs IH]; intros acc Hnd.
  - now rewrite app_nil_r.
  - cbn [fold_left fst snd].
    assert (Hk : k ∉ map fst acc).
    { rewrite map_app in Hnd. apply NoDup_app in Hnd as (_ & Hd & _).
      intros Hin. apply (Hd k Hin). cbn [map fst]. apply list_elem_of_here. }
    rewrite (od_set_fresh k v acc Hk).
    rewrite IH; rewrite <- app_assoc; [reflexivity | exact Hnd].
Qed.

(** With distinct key columns the checkpoint lists them in key order. *)
Lemma checkpoint_value_order (keys : list KeyDescriptor) (row : Row) :
  NoDup (map attname keys) ->
  checkpoint_value keys row
  = map (fun k => (k, row_get row k)) (map attname keys).
Proof.
  intros Hnd. unfold checkpoint_value, od_of_pairs.
  rewrite od_of_pairs_fresh; [reflexivity |].
  cbn [app]. rewrite map_map. cbn [fst]. now rewrite map_id.
Qed.


(** ** Fetches and draws *)

Lemma steady_bind {A B} (m : M A) (f : A -> M B) :
  steady m -> (forall a, steady (f a)) -> steady (bind m f).
Proof.
  intros Hm Hf self c. unfold bind.
  specialize (Hm self c).
  destruct (m self c) as [[[[a|e] s1] c1] ev1]; [|exact Hm].
  specialize (Hf a s1 c1).
  destruct (f a s1 c1) as [[[r s2] c2] ev2].
  cbn [fst snd] in *. destruct Hm, Hf. split; congruence.
Qed.

Lemma steady_ret {A} (a : A) : steady (ret a).
Proof. intros self c. split; reflexivity. Qed.

Lemma steady_get_self : steady get_self.
Proof. intros self c. split; reflexivity. Qed.

Lemma steady_modify (f : Postgres -> Postgres) : steady (modify f).
Proof. intros self c. split; reflexivity. Qed.

Lemma steady_execute (query : string) : steady (execute db query).
Proof.
  intros self c. unfold execute. destruct (cursor self); [|split; reflexivity].
  destruct (db_execute db (statements c) query) as [e|]; [|split; reflexivity].
  destruct (is_DatabaseError e); split; reflexivity.
Qed.

Lemma steady_connect (src : Source) : steady (connect db src).
Proof.
  intros self c. unfold connect.
  destruct (parse_addr (src_addr src)) as [[[h p] d]|e]; [|split; reflexivity].
  destruct (db_connect db (connects c) _) as [[]|]; split; reflexivity.
Qed.

Lemma steady_get_table_metadata (sql : string -> string) (table : string) :
  steady (get_table_metadata db sql table).
Proof.
  intros self c. unfold get_table_metadata.
  pose proof (steady_execute (sql table) self c) as H.
  destruct (execute db (sql table) self c) as [[[[a|e] s1] c1] ev1]; exact H.
Qed.

Lemma steady_get_max_value (schema table column : string) :
  steady (get_max_value db schema table column).
Proof.
  intros self c. unfold get_max_value.
  destruct (negb (str_truthy column)); [split; reflexivity |].
  match goal with
  | |- context [execute db ?q self c] =>
      pose proof (steady_execute q self c) as H;
      destruct (execute db q self c) as [[[[a|e] s1] c1] ev1]; exact H
  end.
Qed.

Lemma steady_open_cursor (schema table : string) :
  steady (open_cursor KEY_STRATEGY db schema table).
Proof.
  unfold open_cursor.
  repeat first
    [ apply steady_get_self | apply steady_modify | apply steady_connect
    | apply steady_execute | apply steady_get_max_value | apply steady_ret
    | apply steady_get_table_metadata
    | apply steady_bind
    | match goal with |- steady (match ?x with _ => _ end) => destruct x end
    | intros ? ].
Qed.

Lemma ensure_cursor_steady (schema table : string) (self : Postgres)
    (c : Counters) r s1 c1 ev1 :
  (if cursor self is Some _ then ret tt
   else open_cursor KEY_STRATEGY db schema table) self c = (r, s1, c1, ev1) ->
  fetches c1 = fetches c /\ draws c1 = draws c.
Proof.
  destruct (cursor self).
  - intros H. injection H as <- <- <- <-. split; reflexivity.
  - intros H. pose proof (steady_open_cursor schema table self c) as Hs.
    now rewrite H in Hs.
Qed.


(** One attempt of [read] returns the tagged rows of the next fetch. *)
Lemma read_body_batch (bs : option Z) (self : Postgres) (c : Counters) :
  match read_body KEY_STRATEGY db bs self c with
  | (r, self', c', _) => batch_post db self c r self' c'
  end.
Proof.
  destruct (Z.of_nat (length (tables self)) <=? index self) eqn:Hin.
  { unfold read_body, bind, get_self. rewrite Hin. exact I. }
  destruct (py_index (tables self) (index self)) as [t|] eqn:Ht.
  2:{ unfold read_body, bind, get_self. rewrite Hin, Ht.
      repeat split; discriminate. }
  destruct (split1 "." (value t)) as [[schema table]|] eqn:Hsplit.
  2:{ unfold read_body, bind, get_self. rewrite Hin, Ht, Hsplit.
      repeat split; discriminate. }
  rewrite (read_body_steps bs self c t schema table Hin Ht Hsplit).
  set (size := match bs with
               | Some n => if n =? 0 then batch_size self else n
               | None => batch_size self
               end).
  destruct ((if cursor self is Some _ then ret ()
             else open_cursor KEY_STRATEGY db schema table) self c)
    as [[[r1 s1] c1] ev1] eqn:Hens.
  pose proof (ensure_cursor_steady _ _ _ _ _ _ _ _ Hens) as [Hfe Hdr].
  apply ensure_cursor_facts in Hens as [_ Hf1].
  pose proof Hf1 as (Hidx & Htab & _).
  destruct r1 as [u|e]; [| cbn [batch_post]; auto].
  destruct (cursor s1) as [k|] eqn:Hcur.
  2:{ destruct (fetch_batch_closed size schema table s1 c1 Hcur) as [e ->].
      cbn [batch_post]. auto. }
  rewrite (fetch_batch_open size schema table s1 c1 k Hcur).
  destruct (db_execute db (statements c1) (fetch_query size)) as [e|].
  { cbn [batch_post]. destruct (is_DatabaseError e); auto. }
  cbv zeta.
  set (sid := drawn_sid db (draws c1)).
  set (result := map (tag_row table schema sid) (db_fetch db (fetches c1))).
  set (s2 := set_loaded _ _).
  assert (Hrows : result
                  = map (tag_row table schema (drawn_sid db (draws c)))
                      (db_fetch db (fetches c))).
  { subst result sid. now rewrite Hfe, Hdr. }
  destruct (last result) as [last_row|] eqn:Hlast.
  - rewrite (finish_batch_report result last_row s2 (bump_fetch c1) Hlast).
    change (current_keys s2) with (current_keys s1).
    destruct (current_keys s1) as [keys|].
    + cbn [batch_post]. exists t, schema, table.
      cbn [bump_fetch draws fetches]. rewrite Hfe, Hdr. auto.
    + cbn [batch_post]. repeat split; try assumption; discriminate.
  - apply last_None in Hlast. rewrite Hlast in *. rewrite finish_batch_empty.
    cbn [batch_post]. exists t, schema, table.
    cbn [bump_fetch draws fetches]. rewrite Hfe, Hdr. auto.
Qed.

Lemma on_exception_batch (bs : option Z) (remaining tries : nat)
    (self : Postgres) (c : Counters) :
  match on_exception remaining tries (read_body KEY_STRATEGY db bs) self c with
  | (r, self', c', _) => batch_post db self c r self' c'
  end.
Proof.
  revert tries self c.
  induction remaining as [|remaining IH]; intros tries self c; cbn [on_exception].
  - pose proof (read_body_batch bs self c) as H.
    destruct (read_body KEY_STRATEGY db bs self c) as [[[[a|e] s1] c1] ev1];
      exact H.
  - pose proof (read_body_batch bs self c) as H.
    destruct (read_body KEY_STRATEGY db bs self c) as [[[[a|e] s1] c1] ev1];
      [exact H |].
    destruct (is_DatabaseError e) eqn:He; [| exact H].
    destruct H as (Htab & Hidx & Hc). destruct (Hc He) as [Hdr Hfe].
    specialize (IH (S tries) s1 c1).
    destruct (on_exception remaining (S tries) (read_body KEY_STRATEGY db bs)
                s1 c1) as [[[r s2] c2] ev2].
    destruct r as [[rows|]|e']; cbn [batch_post] in *.
    + destruct IH as (t & schema & table & Ht & Hs & Hr & Hd & Hf).
      exists t, schema, table.
      rewrite <- Htab, <- Hidx, <- Hdr, <- Hfe. auto.
    + exact I.
    + destruct IH as (Ht & Hi & Hc'). repeat split; try congruence.
      all: destruct (Hc' H); congruence.
Qed.

End Scanner.

(** ** Row tagging *)

Lemma hex_char_is_hex (d : Z) : UUID.is_hex_char (UUID.hex_char d) = true.
Proof.
  unfold UUID.hex_char.
  assert (H : (Z.to_nat (d mod 16) < 16)%nat).
  { pose proof (Z.mod_pos_bound d 16 ltac:(lia)). lia. }
  revert H. generalize (Z.to_nat (d mod 16)). intros n Hn.
  do 16 (destruct n as [|n]; [reflexivity |]). lia.
Qed.

(** The text of a UUID is always in the canonical 8-4-4-4-12 form. *)
Lemma to_str_format (int : Z) : UUID.is_uuid_format (UUID.to_str int) = true.
Proof.
  unfold UUID.is_uuid_format, UUID.to_str.
  cbn [UUID.hex_slice UUID.is_uuid_format_from Nat.eqb orb Ascii.eqb Bool.eqb].
  unfold UUID.hex_digit. rewrite !hex_char_is_hex. reflexivity.
Qed.

Lemma tag_row_tablename (table schema sid : string) (r : Row) :
  tag_row table schema sid r !! "__tablename" = Some (VStr table).
Proof. unfold tag_row. apply lookup_insert_eq. Qed.

Lemma tag_row_schemaname (table schema sid : string) (r : Row) :
  tag_row table schema sid r !! "__schemaname" = Some (VStr schema).
Proof.
  unfold tag_row. rewrite lookup_insert_ne by discriminate.
  apply lookup_insert_eq.
Qed.

Lemma tag_row_other (table schema sid : string) (r : Row) (k : string) :
  k <> "__tablename" -> k <> "__schemaname" -> k <> "__state" ->
  tag_row table schema sid r !! k = r !! k.
Proof.
  intros H1 H2 H3. unfold tag_row.
  rewrite !lookup_insert_ne by congruence. reflexivity.
Qed.

(** X1.  A call of [read] that returns rows returns the rows of the next
    fetch, each carrying [__tablename] (the part of the table's value after
    its first dot), [__schemaname] (the part before it) and [__state]; the
    state identifier is the text of the UUID drawn for this fetch, in the
    canonical format, the same in every row, and each such call draws
    exactly one new identifier. *)
Theorem read_rows_tagged
    (KEY_STRATEGY : list (list KeyDescriptor -> list KeyDescriptor))
    (db : Database) (bs : option Z) (self : Postgres) (c : Counters) :
  match read KEY_STRATEGY db bs self c with
  | (Ok (Some rows), self', c', _) =>
      exists t schema table,
        py_index (tables self) (index self) = Some t
        /\ split1 "." (value t) = Some (schema, table)
        /\ UUID.is_uuid_format (drawn_sid db (draws c)) = true
        /\ draws c' = S (draws c)
        /\ length rows = length (db_fetch db (fetches c))
        /\ Forall (fun r : Row =>
                     r !! "__tablename" = Some (VStr table)
                     /\ r !! "__schemaname" = Some (VStr schema)
                     /\ r !! "__state" = Some (VStr (drawn_sid db (draws c))))
             rows
  | _ => True
  end.
Proof.
  pose proof (on_exception_batch KEY_STRATEGY db bs (MAX_RETRIES - 1) 1 self c)
    as H.
  unfold read.
  destruct (on_exception _ _ _ self c) as [[[[[rows|]|e] s'] c'] ev];
    try exact I.
  destruct H as (t & schema & table & Ht & Hs & -> & Hd & Hf).
  exists t, schema, table. repeat split; try assumption.
  - apply to_str_format.
  - apply length_map.
  - induction (db_fetch db (fetches c)) as [|raw l IH]; cbn [map];
      constructor; [| exact IH].
    split; [apply tag_row_tablename |].
    split; [apply tag_row_schemaname | apply tag_row_state].
Qed.

(** X2.  Whatever a fetched row holds under [__tablename],
    [__schemaname] or [__state], the row returned in its place holds the
    engine's tags there, and the fetched values everywhere else. *)
Theorem read_tags_overwrite
    (KEY_STRATEGY : list (list KeyDescriptor -> list KeyDescriptor))
    (db : Database) (bs : option Z) (self : Postgres) (c : Counters) :
  match read KEY_STRATEGY db bs self c with
  | (Ok (Some rows), _, _, _) =>
      exists t schema table,
        py_index (tables self) (index self) = Some t
        /\ split1 "." (value t) = Some (schema, table)
        /\ length rows = length (db_fetch db (fetches c))
        /\ forall (i : nat) (fetched returned : Row),
             db_fetch db (fetches c) !! i = Some fetched ->
             rows !! i = Some returned ->
             returned !! "__tablename" = Some (VStr table)
             /\ returned !! "__schemaname" = Some (VStr schema)
             /\ returned !! "__state" = Some (VStr (drawn_sid db (draws c)))
             /\ forall k : string,
                  k <> "__tablename" -> k <> "__schemaname" ->
                  k <> "__state" ->
                  returned !! k = fetched !! k
  | _ => True
  end.
Proof.
  pose proof (on_exception_batch KEY_STRATEGY db bs (MAX_RETRIES - 1) 1 self c)
    as H.
  unfold read.
  destruct (on_exception _ _ _ self c) as [[[[[rows|]|e] s'] c'] ev];
    try exact I.
  destruct H as (t & schema & table & Ht & Hs & -> & Hd & Hf).
  exists t, schema, table. repeat split; try assumption.
  - apply length_map.
  - change (map ?f ?l) with (f <$> l) in H0.
    rewrite list_lookup_fmap, H in H0. injection H0 as <-.
    apply tag_row_tablename.
  - change (map ?f ?l) with (f <$> l) in H0.
    rewrite list_lookup_fmap, H in H0. injection H0 as <-.
    apply tag_row_schemaname.
  - change (map ?f ?l) with (f <$> l) in H0.
    rewrite list_lookup_fmap, H in H0. injection H0 as <-.
    apply tag_row_state.
  - intros k. change (map ?f ?l) with (f <$> l) in H0.
    rewrite list_lookup_fmap, H in H0. injection H0 as <-.
    apply tag_row_other.
Qed.

(** ** Checkpoints *)

(** X3.  A call of [read] hands a checkpoint to the host exactly when it
    returns a non-empty batch: then the checkpoint is the last thing the
    call does, it is the only one, its identifier is the [__state] of the
    batch, and it carries the table index at entry with the ordering-key
    columns of the last row of the batch (in key order when the key
    columns are distinct).  A call that returns an empty batch, no more
    data or an error reports nothing. *)
Theorem read_reports_checkpoint
    (KEY_STRATEGY : list (list KeyDescriptor -> list KeyDescriptor))
    (db : Database) (bs : option Z) (self : Postgres) (c : Counters) :
  match read KEY_STRATEGY db bs self c with
  | (Ok (Some rows), self', _, events) =>
      match last rows with
      | Some last_row =>
          exists before keys sid,
            events
            = (before
                 ++ [EvState (Some sid)
                       (mkSaved (Some (index self))
                          (Some (checkpoint_value keys last_row)))])%list
            /\ reports before = []
            /\ reports events
               = [(Some sid,
                   mkSaved (Some (index self))
                     (Some (checkpoint_value keys last_row)))]
            /\ current_keys self' = Some keys
            /\ last_row !! "__state" = Some (VStr sid)
      | None => reports events = []
      end
  | (_, _, _, events) => reports events = []
  end
  /\ (forall (keys : list KeyDescriptor) (last_row : Row),
        NoDup (map attname keys) ->
        checkpoint_value keys last_row
        = map (fun k => (k, row_get last_row k)) (map attname keys)).
Proof.
  split; [| apply checkpoint_value_order].
  pose proof (on_exception_post KEY_STRATEGY db bs (MAX_RETRIES - 1) 1 self c)
    as H.
  unfold read.
  destruct (on_exception _ _ _ self c) as [[[[[rows|]|e] s'] c'] ev];
    cbn [read_post] in H; [| exact H | exact (proj1 H)].
  destruct (last rows) as [last_row|]; [| exact H].
  destruct H as (before & keys & sid & -> & Hb & Hk & Hs & Hsv & Hi & Hl).
  exists before, keys, sid. repeat split; try assumption.
  now rewrite reports_app, Hb.
Qed.

Lemma read_reports_checkpoint_witness :
  checkpoint_value [Session.column "pk1"; Session.column "pk2"]
    (<["pk2" := VStr "1994-09-16"]> (<["pk1" := VInt 7]> ∅))
  = map (fun k => (k, row_get (<["pk2" := VStr "1994-09-16"]>
                                 (<["pk1" := VInt 7]> ∅)) k))
      ["pk1"; "pk2"].
Proof.
  pose proof (read_reports_checkpoint KeyStrategy.KEY_STRATEGY
                Session.database None (init Session.src) fresh) as H.
  apply proj2 in H.
  apply (H [Session.column "pk1"; Session.column "pk2"]).
  cbn [map attname Session.column]. compute_done.
Defined.

(** ** The query builder: the incremental filter *)

Lemma prefix_app (x b : string) : String.prefix x (x ++ b) = true.
Proof.
  induction x as [|a x IH]; [now destruct b |].
  simpl. destruct (ascii_dec a a); [exact IH | congruence].
Qed.

Lemma prefix_app_l (x a b : string) :
  String.prefix x a = true -> String.prefix x (a ++ b) = true.
Proof.
  revert a. induction x as [|c x IH]; intros a H.
  - now destruct (a ++ b).
  - destruct a as [|d a]; [discriminate |].
    simpl in *.
    destruct (ascii_dec c d); [now apply IH | discriminate].
Qed.

Lemma str_in_app_r (x a b : string) :
  str_in x b = true -> str_in x (a ++ b) = true.
Proof.
  intros H. induction a as [|c a IH]; [exact H |].
  change (str_in x (String c (a ++ b)) = true). cbn [str_in].
  destruct (String.prefix x (String c (a ++ b))); [reflexivity | exact IH].
Qed.

Lemma str_in_app_l (x a b : string) :
  str_in x a = true -> str_in x (a ++ b) = true.
Proof.
  induction a as [|c a IH]; intros H.
  - cbn [str_in] in H. destruct (String.prefix x "") eqn:Hp; [|discriminate].
    destruct x; [|discriminate]. now destruct b.
  - change (str_in x (String c (a ++ b)) = true). cbn [str_in] in *.
    destruct (String.prefix x (String c a)) eqn:Hp.
    + change (String c (a ++ b)) with (String c a ++ b).
      now rewrite (prefix_app_l _ _ b Hp).
    + destruct (String.prefix x (String c (a ++ b))); [reflexivity | now apply IH].
Qed.

Lemma str_in_here (x b : string) : str_in x (x ++ b) = true.
Proof.
  pose proof (prefix_app x b) as H.
  destruct (x ++ b); cbn [str_in]; now rewrite H.
Qed.

Lemma str_in_join (sep x : string) (l : list string) :
  x ∈ l -> str_in x (join sep l) = true.
Proof.
  induction l as [|y l IH]; intros Hin; [now apply elem_of_nil in Hin |].
  apply elem_of_cons in Hin.
  destruct l as [|z l].
  - destruct Hin as [->|Hin]; [| now apply elem_of_nil in Hin].
    cbn [join]. rewrite <- (str_app_empty_r y) at 2. apply str_in_here.
  - change (join sep (y :: z :: l)) with (y ++ sep ++ join sep (z :: l)).
    destruct Hin as [->|Hin]; [apply str_in_here |].
    apply str_in_app_r, str_in_app_r. now apply IH.
Qed.

Lemma str_in_empty (x : string) : str_truthy x = true -> str_in x "" = false.
Proof. destruct x; [discriminate | reflexivity]. Qed.

Lemma get_query_resume_truthy (c0 : string * pyval) (st : OrderedDict) :
  str_truthy (get_query_resume (Some (c0 :: st))) = true.
Proof.
  rewrite get_query_resume_spec by discriminate. apply resume_predicate_truthy.
Qed.

Lemma str_in_resume (x : string) (st : OrderedDict) :
  x ∈ od_keys st -> str_in x (get_query_resume (Some st)) = true.
Proof.
  intros Hin. destruct st as [|c0 st]; [now apply elem_of_nil in Hin |].
  unfold get_query_resume.
  destruct (1 <? Z.of_nat (length (c0 :: st))).
  - apply (str_in_app_r x "("), str_in_app_l. now apply str_in_join.
  - apply str_in_app_l. now apply str_in_join.
Qed.

(** X4.  When the incremental column is one of the columns of the resume
    state, the WHERE clause is the resume predicate alone: the incremental
    predicate is left out, whatever the incremental value and the maximum
    are. *)
Theorem get_query_state_column
    (schema table inckey : string) (incval max_value : pyval)
    (keys : list KeyDescriptor) (st : OrderedDict) :
  inckey ∈ od_keys st ->
  get_query schema table inckey incval keys max_value (Some st)
  = select_from schema table ++ " WHERE " ++ get_query_resume (Some st)
      ++ get_query_orderby inckey keys.
Proof.
  intros Hin. unfold get_query, get_query_where_clause, get_query_where.
  rewrite (str_in_resume inckey st Hin), andb_false_r.
  destruct st as [|c0 st]; [now apply elem_of_nil in Hin |].
  rewrite get_query_resume_truthy.
  now rewrite !str_app_assoc, str_app_empty_r.
Qed.

Lemma get_query_state_column_witness :
  get_query "public" "foo" "pk2" (VStr "5")
    [mkKey "pk1" "integer" 2 true true "foo_pkey";
     mkKey "pk2" "date" 2 true true "foo_pkey"] (VInt 9)
    (Some [("pk1", VInt 1); ("pk2", VStr "1994-09-16")])
  = select_from "public" "foo" ++ " WHERE "
      ++ get_query_resume (Some [("pk1", VInt 1); ("pk2", VStr "1994-09-16")])
      ++ get_query_orderby "pk2"
           [mkKey "pk1" "integer" 2 true true "foo_pkey";
            mkKey "pk2" "date" 2 true true "foo_pkey"].
Proof.
  apply (get_query_state_column "public" "foo" "pk2" (VStr "5") (VInt 9)).
  compute_done.
Defined.

Lemma inc_clause_truthy (inckey : string) (incval max_value : pyval) :
  str_truthy (get_query_inc_clause inckey incval max_value) = true.
Proof.
  unfold get_query_inc_clause. destruct (truthy max_value); [reflexivity |].
  apply str_truthy_app_r. reflexivity.
Qed.

(** X5.  Without a resume state (none, or an empty one) the WHERE clause is
    the incremental predicate, present exactly when the incremental column
    and the incremental value are both truthy; the upper bound is added,
    unquoted, exactly when the maximum is truthy. *)
Theorem get_query_first_run
    (schema table inckey : string) (incval max_value : pyval)
    (keys : list KeyDescriptor) :
  get_query schema table inckey incval keys max_value None
  = select_from schema table
      ++ (if str_truthy inckey && truthy incval
          then " WHERE "
                 ++ (if truthy max_value
                     then "(" ++ inckey ++ " >= '" ++ str incval ++ "' AND "
                            ++ inckey ++ " <= " ++ str max_value ++ ")"
                     else inckey ++ " >= '" ++ str incval ++ "'")
          else "")
      ++ get_query_orderby inckey keys
  /\ get_query schema table inckey incval keys max_value (Some [])
     = get_query schema table inckey incval keys max_value None.
Proof.
  split; [| reflexivity].
  unfold get_query, get_query_where_clause, get_query_where.
  cbn [get_query_resume]. rewrite str_app_empty_r.
  destruct (str_truthy inckey) eqn:Hk; [| reflexivity].
  rewrite (str_in_empty inckey Hk).
  destruct (truthy incval); [| reflexivity].
  cbn [andb negb].
  change (if str_truthy "" then "" ++ " AND " else "") with "".
  change ("" ++ get_query_inc_clause inckey incval max_value)
    with (get_query_inc_clause inckey incval max_value).
  rewrite inc_clause_truthy. unfold get_query_inc_clause, sq.
  destruct (truthy max_value); rewrite ?str_app_assoc; reflexivity.
Qed.

(** ** From a checkpoint to the next query *)

(** X6.  With distinct key columns, the checkpoint of a row lists exactly
    the key columns in key order; the ORDER BY clause lists the same
    columns in the same order, followed at most by the incremental column;
    and the resume predicate compares them with the values of the row as
    quoted text, a missing or null value being rendered as None. *)
Theorem checkpoint_matches_order
    (inckey : string) (keys : list KeyDescriptor) (row : Row) :
  NoDup (map attname keys) ->
  keys <> [] ->
  od_keys (checkpoint_value keys row) = map attname keys
  /\ (exists tail,
        get_query_orderby inckey keys
        = " ORDER BY "
            ++ join "," (od_keys (checkpoint_value keys row) ++ tail)%list
        /\ (tail = [] \/ tail = [inckey]))
  /\ get_query_resume (Some (checkpoint_value keys row))
     = (let cols := join "," (map attname keys) in
        let vals :=
          join ","
            (map (fun k => "'" ++ str (row_get row (attname k)) ++ "'") keys) in
        if 1 <? Z.of_nat (length keys)
        then "(" ++ cols ++ ") >= (" ++ vals ++ ")"
        else cols ++ " >= " ++ vals).
Proof.
  intros Hnd Hne.
  rewrite (checkpoint_value_order keys row Hnd).
  assert (Hk : od_keys (map (fun k => (k, row_get row k)) (map attname keys))
               = map attname keys).
  { unfold od_keys. rewrite map_map. cbn [fst]. apply map_id. }
  rewrite Hk. split; [reflexivity |]. split.
  - rewrite get_query_orderby_spec.
    destruct keys as [|k keys]; [congruence |].
    unfold Spec.order_columns. case_bool_decide.
    + exists [inckey]. split; [reflexivity | now right].
    + exists []. rewrite app_nil_r. split; [reflexivity | now left].
  - destruct keys as [|k keys]; [congruence |].
    unfold get_query_resume. cbn [map]. cbv zeta.
    unfold od_keys, od_values. cbn [map fst snd length].
    rewrite !map_map, !length_map. cbn [fst snd].
    unfold quote_literal, sq. reflexivity.
Qed.

Lemma checkpoint_matches_order_witness :
  od_keys (checkpoint_value [Session.column "pk1"; Session.column "pk2"] ∅)
  = ["pk1"; "pk2"]
  /\ get_query_resume
       (Some (checkpoint_value [Session.column "pk1"; Session.column "pk2"] ∅))
     = "(pk1,pk2) >= ('None','None')".
Proof.
  pose proof (checkpoint_matches_order "id"
                [Session.column "pk1"; Session.column "pk2"] ∅) as H.
  assert (Hnd : NoDup (map attname [Session.column "pk1"; Session.column "pk2"]))
    by (cbn [map attname Session.column]; compute_done).
  specialize (H Hnd ltac:(discriminate)).
  destruct H as (H1 & _ & H3). split; [exact H1 | exact H3].
Defined.

(** ** Addresses the connection manager rejects *)

(** X7.  An address without a slash, or whose text after the last colon of
    the host part is not a number, makes [connect] raise a [ValueError]
    before the driver is called: nothing is sent and nothing changes. *)
Theorem connect_rejects_address (db : Database) (src : Source)
    (self : Postgres) (c : Counters) :
  has_char "/" (src_addr src) = false
  \/ (exists host port dbname,
        src_addr src = host ++ ":" ++ port ++ "/" ++ dbname
        /\ has_char "/" dbname = false
        /\ has_char ":" port = false
        /\ int_of_str port = None) ->
  exists message,
    connect db src self c = (Raise (ValueError message), self, c, []).
Proof.
  intros [Hno | (host & port & dbname & Haddr & Hdb & Hport & Hint)];
    unfold connect, parse_addr.
  - rewrite (rsplit1_absent "/" _ Hno). eauto.
  - rewrite Haddr.
    replace (host ++ ":" ++ port ++ "/" ++ dbname)
      with ((host ++ ":" ++ port) ++ String "/" dbname)
      by now rewrite !str_app_assoc.
    rewrite (rsplit1_last "/" _ dbname Hdb), has_char_app.
    replace (has_char ":" (":" ++ port)) with true by reflexivity.
    rewrite orb_true_r.
    change (":" ++ port) with (String ":" port).
    rewrite (rsplit1_last ":" host port Hport), Hint. eauto.
Qed.

Lemma connect_rejects_address_witness :
  exists message,
    connect Session.database
      (mkSource "db.example.com:54x2/sales" "test" "secret"
         None None None None None None) (init Session.src) fresh
    = (Raise (ValueError message), init Session.src, fresh, []).
Proof.
  apply (connect_rejects_address Session.database
           (mkSource "db.example.com:54x2/sales" "test" "secret"
              None None None None None None)).
  right. exists "db.example.com", "54x2", "sales".
  repeat split; reflexivity.
Defined.

(** ** The key strategy *)

(** X8.  [key_strategy] answers with the result of the first strategy, in
    list order, whose result on the candidates is not empty, and with the
    candidates themselves when there is none; so its answer is empty only
    for an empty list of candidates. *)
Theorem key_strategy_first_answer
    (KEY_STRATEGY : list (list KeyDescriptor -> list KeyDescriptor))
    (keys : list KeyDescriptor) :
  key_strategy KEY_STRATEGY keys
  = match find (fun strategy =>
                  match strategy keys with [] => false | _ :: _ => true end)
            KEY_STRATEGY with
    | Some strategy => strategy keys
    | None => keys
    end
  /\ (key_strategy KEY_STRATEGY keys = [] -> keys = []).
Proof.
  unfold key_strategy.
  induction KEY_STRATEGY as [|strategy rest [IH1 IH2]]; [now split |].
  cbn [find]. destruct (strategy keys) as [|k ks] eqn:Hs.
  - split; [exact IH1 | exact IH2].
  - rewrite Hs. split; [reflexivity | discriminate].
Qed.

Lemma key_strategy_first_answer_witness :
  key_strategy KeyStrategy.KEY_STRATEGY [] = []
  /\ @nil KeyDescriptor = [].
Proof.
  pose proof (key_strategy_first_answer KeyStrategy.KEY_STRATEGY []) as H.
  split; [reflexivity | apply (proj2 H); reflexivity].
Defined.

(** ** Closing *)


(** ** The table list *)

Lemma split1_first (c : ascii) (a b : string) :
  has_char c a = false -> split1 c (a ++ String c b) = Some (a, b).
Proof.
  induction a as [|x a IH]; intros Ha.
  - change (split1 c (String c b) = Some ("", b)).
    cbn [split1]. now rewrite Ascii.eqb_refl.
  - change (split1 c (String x (a ++ String c b)) = Some (String x a, b)).
    cbn [has_char] in Ha. apply orb_false_iff in Ha as [Hx Ha].
    cbn [split1]. now rewrite Hx, (IH Ha).
Qed.

(** X10.  The entry [format_table_name] makes for a table is read back by
    [read] as the same schema and table: its value splits at the first dot
    into the schema and the table name, provided the schema name holds no
    dot (a dot in the table name does no harm).  The display name is the
    value, followed by a marker for views. *)
Theorem format_table_name_round_trip
    (row : Row) (schema table : string) (table_type : pyval) :
  row !! "table_schema" = Some (VStr schema) ->
  row !! "table_name" = Some (VStr table) ->
  row !! "table_type" = Some table_type ->
  has_char "." schema = false ->
  exists t,
    format_table_name row = Ok t
    /\ split1 "." (value t) = Some (schema, table)
    /\ name t = value t
                  ++ (if bool_decide (table_type = VStr "VIEW")
                      then " (VIEW)" else "").
Proof.
  intros Hs Hn Ht Hdot. unfold format_table_name. rewrite Hs, Hn, Ht.
  eexists. split; [reflexivity |]. cbn [value name str]. split.
  - apply (split1_first "." schema table Hdot).
  - case_bool_decide; [reflexivity | now rewrite str_app_empty_r].
Qed.

Lemma format_table_name_round_trip_witness :
  exists t,
    format_table_name
      (<["table_schema" := VStr "public"]>
         (<["table_name" := VStr "v1.orders"]>
            (<["table_type" := VStr "VIEW"]> ∅))) = Ok t
    /\ split1 "." (value t) = Some ("public", "v1.orders")
    /\ name t = value t
                  ++ (if bool_decide (VStr "VIEW" = VStr "VIEW")
                      then " (VIEW)" else "").
Proof.
  apply (format_table_name_round_trip
           (<["table_schema" := VStr "public"]>
              (<["table_name" := VStr "v1.orders"]>
                 (<["table_type" := VStr "VIEW"]> ∅)))
           "public" "v1.orders" (VStr "VIEW")).
  - apply lookup_insert_eq.
  - rewrite lookup_insert_ne by discriminate. apply lookup_insert_eq.
  - rewrite !lookup_insert_ne by discriminate. apply lookup_insert_eq.
  - reflexivity.
Defined.



(** ** The retry decorator *)

(** A property of every attempt that survives a retry holds of the
    decorated method. *)
Lemma on_exception_rule {A} (target : M A)
    (post : Postgres -> Counters -> Result A -> Postgres -> Counters
            -> list Event -> Prop) :
  (forall self c,
      match target self c with
      | (r, self', c', events) => post self c r self' c' events
      end) ->
  (forall self c e s1 c1 ev1 tries r s2 c2 ev2,
      target self c = (Raise e, s1, c1, ev1) ->
      is_DatabaseError e = true ->
      post self c (Raise e) s1 c1 ev1 ->
      post s1 c1 r s2 c2 ev2 ->
      post self c r s2 c2 (ev1 ++ EvBackoff tries :: ev2)%list) ->
  forall remaining tries self c,
    match on_exception remaining tries target self c with
    | (r, self', c', events) => post self c r self' c' events
    end.
Proof.
  intros Hone Hchain remaining.
  induction remaining as [|remaining IH]; intros tries self c;
    cbn [on_exception]; pose proof (Hone self c) as H;
    destruct (target self c) as [[[[a|e] s1] c1] ev1] eqn:Ht; try exact H.
  destruct (is_DatabaseError e) eqn:He; [| exact H].
  specialize (IH (S tries) s1 c1).
  destruct (on_exception remaining (S tries) target s1 c1)
    as [[[r s2] c2] ev2].
  now apply (Hchain self c e s1 c1 ev1 tries r s2 c2 ev2).
Qed.


Section Reader.

Variable KEY_STRATEGY : list (list KeyDescriptor -> list KeyDescriptor).
Variable db : Database.

(** *** Methods never wait themselves *)

















End Reader.

Section Attempt.

Variable KEY_STRATEGY : list (list KeyDescriptor -> list KeyDescriptor).
Variable db : Database.

(** *** One attempt, in full *)

Lemma read_body_unfold (bs : option Z) (self : Postgres) (c : Counters) :
  read_body KEY_STRATEGY db bs self c
  = let total := Z.of_nat (length (tables self)) in
    if total <=? index self then (Ok None, self, c, [])
    else
      match py_index (tables self) (index self) with
      | None => (Raise (IndexError "list index out of range"), self, c, [])
      | Some t =>
          match split1 "." (value t) with
          | None =>
              (Raise (ValueError "need more than 1 value to unpack"),
               self, c, [])
          | Some (schema, table) =>
              let progress :=
                EvProgress (index self + 1) total
                  ("Reading table " ++ pretty (index self + 1) ++ " ("
                     ++ table ++ ") out of " ++ pretty total) in
              let size :=
                match bs with
                | Some n => if n =? 0 then batch_size self else n
                | None => batch_size self
                end in
              match (if cursor self is Some _ then ret tt
                     else open_cursor KEY_STRATEGY db schema table) self c with
              | (Raise e, s1, c1, ev1) => (Raise e, s1, c1, progress :: ev1)
              | (Ok _, s1, c1, ev1) =>
                  match cursor s1 with
                  | None =>
                      (Raise (AttributeError
                                "'NoneType' object has no attribute 'execute'"),
                       s1, c1, progress :: ev1)
                  | Some _ =>
                      match db_execute db (statements c1) (fetch_query size) with
                      | Some e =>
                          (Raise e,
                           if is_DatabaseError e then reset_self s1 else s1,
                           bump_statements c1,
                           progress :: (ev1 ++ [EvExecute (fetch_query size)])%list)
                      | None =>
                          let sid := drawn_sid db (draws c1) in
                          let result :=
                            map (tag_row table schema sid)
                              (db_fetch db (fetches c1)) in
                          let s2 :=
                            set_loaded
                              (loaded s1 + Z.of_nat (length result))
                              (set_state_id (Some sid) s1) in
                          match last result with
                          | None =>
                              (Ok (Some []), table_done s2, bump_fetch c1,
                               progress
                                 :: (ev1 ++ [EvExecute (fetch_query size);
                                             EvCursorClose]
                                       ++ (if conn s1 is Some _
                                           then [EvRollback; EvConnClose]
                                           else []))%list)
                          | Some last_row =>
                              match current_keys s1 with
                              | Some keys =>
                                  (Ok (Some result),
                                   set_saved_state
                                     (checkpoint_of (index s1) keys last_row) s2,
                                   bump_fetch c1,
                                   progress
                                     :: (ev1 ++ [EvExecute (fetch_query size);
                                                 EvState (Some sid)
                                                   (checkpoint_of (index s1) keys
                                                      last_row)])%list)
                              | None =>
                                  (Raise (TypeError
                                            "argument 2 to map() must support iteration"),
                                   s2, bump_fetch c1,
                                   progress
                                     :: (ev1 ++ [EvExecute (fetch_query size)])%list)
                              end
                          end
                      end
                  end
              end
          end
      end.
Proof.
  cbv zeta.
  destruct (Z.of_nat (length (tables self)) <=? index self) eqn:Hin.
  { unfold read_body, bind, get_self. now rewrite Hin. }
  destruct (py_index (tables self) (index self)) as [t|] eqn:Ht.
  2:{ unfold read_body, bind, get_self. now rewrite Hin, Ht. }
  destruct (split1 "." (value t)) as [[schema table]|] eqn:Hsplit.
  2:{ unfold read_body, bind, get_self. now rewrite Hin, Ht, Hsplit. }
  rewrite (read_body_steps KEY_STRATEGY db bs self c t schema table Hin Ht Hsplit).
  cbv zeta.
  set (size := match bs with
               | Some n => if n =? 0 then batch_size self else n
               | None => batch_size self
               end).
  destruct ((if cursor self is Some _ then ret ()
             else open_cursor KEY_STRATEGY db schema table) self c)
    as [[[[u|e] s1] c1] ev1]; [| reflexivity].
  destruct (cursor s1) as [k|] eqn:Hcur.
  2:{ unfold fetch_batch, bind, execute. rewrite Hcur.
      now rewrite app_nil_r. }
  rewrite (fetch_batch_open db size schema table s1 c1 k Hcur).
  destruct (db_execute db (statements c1) (fetch_query size)) as [e|];
    [reflexivity |].
  cbv zeta.
  set (sid := drawn_sid db (draws c1)).
  set (result := map (tag_row table schema sid) (db_fetch db (fetches c1))).
  set (s2 := set_loaded _ _).
  destruct (last result) as [last_row|] eqn:Hlast.
  - rewrite (finish_batch_report result last_row s2 (bump_fetch c1) Hlast).
    change (current_keys s2) with (current_keys s1).
    change (index s2) with (index s1). change (state_id s2) with (Some sid).
    destruct (current_keys s1); [reflexivity |]. now rewrite app_nil_r.
  - apply last_None in Hlast. rewrite Hlast, finish_batch_empty.
    change (cursor s2) with (cursor s1). change (conn s2) with (conn s1).
    rewrite Hcur. reflexivity.
Qed.

End Attempt.

Section Handles.

Variable KEY_STRATEGY : list (list KeyDescriptor -> list KeyDescriptor).
Variable db : Database.

(** *** Connection handles *)














End Handles.

Section ReadFacts.

Variable KEY_STRATEGY : list (list KeyDescriptor -> list KeyDescriptor).
Variable db : Database.

(** *** The position in the table list *)

Lemma read_body_position (bs : option Z) (self : Postgres) (c : Counters) :
  match read_body KEY_STRATEGY db bs self c with
  | (r, self', _, _) => position_post self r self'
  end.
Proof.
  rewrite read_body_unfold. cbv zeta.
  destruct (_ <=? _); [reflexivity |].
  destruct (py_index _ _) as [t|]; [| reflexivity].
  destruct (split1 _ _) as [[schema table]|]; [| reflexivity].
  destruct ((if cursor self is Some _ then ret ()
             else open_cursor KEY_STRATEGY db schema table) self c)
    as [[[r1 s1] c1] ev1] eqn:Hens.
  apply ensure_cursor_facts in Hens as [_ Hf]. destruct Hf as (Hidx & _).
  destruct r1 as [u|e]; [| exact Hidx].
  destruct (cursor s1) as [k|]; [| exact Hidx].
  destruct (db_execute db (statements c1) _) as [e|].
  { now destruct (is_DatabaseError e). }
  cbv zeta.
  destruct (last _) as [last_row|] eqn:Hlast.
  - destruct (current_keys s1) as [keys|]; [| exact Hidx].
    destruct (map _ _) as [|r0 rows]; [discriminate | exact Hidx].
  - unfold position_post, closed. cbn. now rewrite Hidx.
Qed.

Lemma on_exception_position (bs : option Z) (remaining tries : nat)
    (self : Postgres) (c : Counters) :
  match on_exception remaining tries (read_body KEY_STRATEGY db bs) self c with
  | (r, self', _, _) => position_post self r self'
  end.
Proof.
  apply (on_exception_rule (read_body KEY_STRATEGY db bs)
           (fun self _ r self' _ _ => position_post self r self')).
  - intros s0 c0. pose proof (read_body_position bs s0 c0) as H.
    now destruct (read_body KEY_STRATEGY db bs s0 c0) as [[[r s1] c1] ev1].
  - intros s0 c0 e s1 c1 ev1 _ r s2 c2 ev2 _ _ H1 H2.
    cbn [position_post] in H1. unfold position_post in *.
    destruct r as [[[|r0 rows]|]|e']; rewrite <- ?H1; exact H2.
Qed.

(** *** The configuration *)

Lemma same_config_refl (self : Postgres) : same_config self self.
Proof. repeat split. Qed.

Lemma same_config_trans (a b c : Postgres) :
  same_config a b -> same_config b c -> same_config a c.
Proof.
  unfold same_config. intros (?&?&?&?&?) (?&?&?&?&?). repeat split; congruence.
Qed.

Lemma frame_same_config (a b : Postgres) : frame a b -> same_config a b.
Proof. unfold frame, same_config. intros (?&?&?&?&?&?&?&?). repeat split; assumption. Qed.

Lemma read_body_config (bs : option Z) (self : Postgres) (c : Counters) :
  match read_body KEY_STRATEGY db bs self c with
  | (_, self', _, _) => same_config self self'
  end.
Proof.
  rewrite read_body_unfold. cbv zeta.
  destruct (_ <=? _); [apply same_config_refl |].
  destruct (py_index _ _) as [t|]; [| apply same_config_refl].
  destruct (split1 _ _) as [[schema table]|]; [| apply same_config_refl].
  destruct ((if cursor self is Some _ then ret ()
             else open_cursor KEY_STRATEGY db schema table) self c)
    as [[[r1 s1] c1] ev1] eqn:Hens.
  apply ensure_cursor_facts in Hens as [_ Hf].
  apply frame_same_config in Hf.
  destruct r1 as [u|e]; [| exact Hf].
  destruct (cursor s1) as [k|]; [| exact Hf].
  destruct (db_execute db (statements c1) _) as [e|].
  { now destruct (is_DatabaseError e). }
  cbv zeta.
  destruct (last _) as [last_row|]; [| exact Hf].
  destruct (current_keys s1) as [keys|]; exact Hf.
Qed.

(** *** The end of the table list *)

Lemma read_body_exhausted (bs : option Z) (self : Postgres) (c : Counters) :
  match read_body KEY_STRATEGY db bs self c with
  | (r, self', c', events) => exhausted_post self c r self' c' events
  end.
Proof.
  rewrite read_body_unfold. cbv zeta.
  destruct (_ <=? _) eqn:Hin.
  { apply Z.leb_le in Hin. now repeat split. }
  apply Z.leb_gt in Hin.
  destruct (py_index _ _) as [t|]; [| exact Hin].
  destruct (split1 _ _) as [[schema table]|]; [| exact Hin].
  destruct ((if cursor self is Some _ then ret ()
             else open_cursor KEY_STRATEGY db schema table) self c)
    as [[[[u|e] s1] c1] ev1]; [| exact Hin].
  destruct (cursor s1) as [k|]; [| exact Hin].
  destruct (db_execute db (statements c1) _) as [e|]; [exact Hin |].
  cbv zeta.
  destruct (last _) as [last_row|]; [| exact Hin].
  destruct (current_keys s1) as [keys|]; exact Hin.
Qed.

End ReadFacts.

(** X12.  [read] moves to the next table exactly when it returns an empty
    batch: then the index is one more, the keys and the saved state are
    cleared and the connection is gone.  In every other case, errors
    included, the index is the one at entry. *)
Theorem read_advances_on_empty
    (KEY_STRATEGY : list (list KeyDescriptor -> list KeyDescriptor))
    (db : Database) (bs : option Z) (self : Postgres) (c : Counters) :
  match read KEY_STRATEGY db bs self c with
  | (Ok (Some []), self', _, _) =>
      index self' = index self + 1
      /\ current_keys self' = None
      /\ saved_state self' = empty_state
      /\ loaded self' = 0
      /\ conn self' = None
      /\ cursor self' = None
  | (_, self', _, _) => index self' = index self
  end.
Proof.
  pose proof (on_exception_position KEY_STRATEGY db bs (MAX_RETRIES - 1) 1
                self c) as H.
  unfold read.
  destruct (on_exception _ _ _ self c) as [[[[[[|r0 rows]|]|e] s'] c'] ev];
    try exact H.
  destruct H as (H1 & H2 & H3 & H4 & H5 & H6). repeat split; assumption.
Qed.

(** X13.  [read] never writes the configuration of the instance: the table
    list, the source, the incremental column and value and the batch size
    are the same after the call, whatever its outcome. *)
Theorem read_keeps_config
    (KEY_STRATEGY : list (list KeyDescriptor -> list KeyDescriptor))
    (db : Database) (bs : option Z) (self : Postgres) (c : Counters) :
  match read KEY_STRATEGY db bs self c with
  | (_, self', _, _) =>
      tables self' = tables self
      /\ source self' = source self
      /\ inckey self' = inckey self
      /\ incval self' = incval self
      /\ batch_size self' = batch_size self
  end.
Proof.
  unfold read.
  apply (on_exception_rule (read_body KEY_STRATEGY db bs)
           (fun self _ _ self' _ _ => same_config self self')).
  - intros s0 c0. pose proof (read_body_config KEY_STRATEGY db bs s0 c0) as H.
    now destruct (read_body KEY_STRATEGY db bs s0 c0) as [[[r s1] c1] ev1].
  - intros s0 c0 e s1 c1 ev1 _ r s2 c2 ev2 _ _ H1 H2.
    now apply same_config_trans with s1.
Qed.

(** X14.  [read] answers "no more data" exactly when the index has reached
    the end of the table list, and then it does nothing: no statement, no
    progress report, no change to the instance.  Otherwise it returns a
    batch or raises. *)
Theorem read_no_more_data
    (KEY_STRATEGY : list (list KeyDescriptor -> list KeyDescriptor))
    (db : Database) (bs : option Z) (self : Postgres) (c : Counters) :
  match read KEY_STRATEGY db bs self c with
  | (Ok None, self', c', events) =>
      Z.of_nat (length (tables self)) <= index self
      /\ self' = self /\ c' = c /\ events = []
  | _ => index self < Z.of_nat (length (tables self))
  end.
Proof.
  pose proof (on_exception_rule (read_body KEY_STRATEGY db bs)
                (exhausted_post)) as H.
  unfold read.
  specialize (H (read_body_exhausted KEY_STRATEGY db bs)).
  assert (Hchain : forall self c e s1 c1 ev1 tries r s2 c2 ev2,
             read_body KEY_STRATEGY db bs self c = (Raise e, s1, c1, ev1) ->
             is_DatabaseError e = true ->
             exhausted_post self c (Raise e) s1 c1 ev1 ->
             exhausted_post s1 c1 r s2 c2 ev2 ->
             exhausted_post self c r s2 c2 (ev1 ++ EvBackoff tries :: ev2)%list).
  { clear. intros self c e s1 c1 ev1 tries r s2 c2 ev2 Hrun _ H1 H2.
    pose proof (read_body_batch KEY_STRATEGY db bs self c) as Hb.
    rewrite Hrun in Hb. destruct Hb as (Htab & Hidx & _).
    cbn [exhausted_post] in H1. unfold exhausted_post in *.
    rewrite Htab, Hidx in H2.
    destruct r as [[rows|]|e']; [exact H2 | | exact H2].
    destruct H2 as (H2 & _). lia. }
  specialize (H Hchain (MAX_RETRIES - 1)%nat 1%nat self c).
  destruct (on_exception _ _ _ self c) as [[[[[rows|]|e] s'] c'] ev];
    exact H.
Qed.

(** X15.  A call of [read] that raises leaves the position of the scan as
    it was: the index, the saved state and the table list are those at
    entry, and no checkpoint has been reported, so the next call starts
    again from the last checkpoint. *)
Theorem read_error_keeps_position
    (KEY_STRATEGY : list (list KeyDescriptor -> list KeyDescriptor))
    (db : Database) (bs : option Z) (self : Postgres) (c : Counters) :
  match read KEY_STRATEGY db bs self c with
  | (Raise _, self', _, events) =>
      index self' = index self
      /\ saved_state self' = saved_state self
      /\ tables self' = tables self
      /\ reports events = []
  | _ => True
  end.
Proof.
  pose proof (on_exception_post KEY_STRATEGY db bs (MAX_RETRIES - 1) 1 self c)
    as H1.
  pose proof (on_exception_batch KEY_STRATEGY db bs (MAX_RETRIES - 1) 1 self c)
    as H2.
  unfold read.
  destruct (on_exception _ _ _ self c) as [[[[a|e] s'] c'] ev]; [exact I |].
  destruct H1 as (Hq & Hi & Hs). destruct H2 as (Ht & _). auto.
Qed.




(** ** Reading on a database that answers *)

Section Opening.

Variable KEY_STRATEGY : list (list KeyDescriptor -> list KeyDescriptor).
Variable db : Database.

Lemma py_index_in_range {A} (l : list A) (i : Z) (x : A) :
  py_index l i = Some x -> (Z.of_nat (length l) <=? i) = false.
Proof.
  unfold py_index. intros H. apply Z.leb_gt.
  destruct ((0 <=? i) && (i <? Z.of_nat (length l))) eqn:E1.
  { apply andb_true_iff in E1 as [_ E1]. lia. }
  destruct ((- Z.of_nat (length l) <=? i) && (i <? 0)) eqn:E2;
    [| discriminate].
  apply andb_true_iff in E2 as [_ E2]. lia.
Qed.

Lemma on_exception_ok {A} (target : M A) (remaining tries : nat)
    (self : Postgres) (c : Counters) (a : A) s1 c1 ev1 :
  target self c = (Ok a, s1, c1, ev1) ->
  on_exception remaining tries target self c = (Ok a, s1, c1, ev1).
Proof. intros H. destruct remaining; cbn [on_exception]; now rewrite H. Qed.

Lemma on_exception_again {A} (target : M A) (remaining tries : nat)
    (self : Postgres) (c : Counters) (e : Exn) s1 c1 ev1 :
  target self c = (Raise e, s1, c1, ev1) ->
  is_DatabaseError e = true ->
  on_exception (S remaining) tries target self c
  = match on_exception remaining (S tries) target s1 c1 with
    | (r, s2, c2, ev2) => (r, s2, c2, (ev1 ++ EvBackoff tries :: ev2)%list)
    end.
Proof. intros H He. cbn [on_exception]. now rewrite H, He. Qed.

(** Opening a cursor when the connection is granted and every statement
    is accepted. *)
Lemma open_cursor_run (schema table : string) (self : Postgres)
    (c : Counters) (host dbname : string) (port : Z) :
  parse_addr (src_addr (source self)) = Ok (host, port, dbname) ->
  let args := mkArgs host port (src_user (source self))
                (src_password (source self)) dbname CONNECT_TIMEOUT in
  db_connect db (connects c) args = None ->
  (forall m query, (statements c <= m)%nat -> db_execute db m query = None) ->
  open_cursor KEY_STRATEGY db schema table self c
  = match introspect KEY_STRATEGY db schema table self (statements c) with
    | (keys, max_value, n, catalog) =>
        (Ok tt,
         set_current_keys (Some keys)
           (set_handles (Some (connects c)) (Some (connects c)) self),
         mkCounters (S (connects c)) (S n) (fetches c) (draws c),
         (EvConnect args :: catalog
            ++ [EvExecute (declare_query schema table self keys max_value)]
         )%list)
    end.
Proof.
  intros Hparse args Hconn Hexec.
  unfold introspect, declare_query, max_query. cbv zeta.
  unfold open_cursor.
  unfold bind at 1. unfold get_self at 1.
  unfold bind at 1. unfold connect. rewrite Hparse. fold args. rewrite Hconn.
  unfold bind, get_self, modify, get_table_metadata, get_max_value,
    execute, ret.
  destruct (str_truthy (inckey self)) eqn:Hinc;
  destruct (current_keys self) as [[|k0 known]|] eqn:Hknown;
    cbn [default from_option id];
    repeat first
      [ progress cbn [fst snd cursor set_handles set_current_keys current_keys
                      statements connects fetches draws inckey incval
                      saved_state default from_option id negb app]
      | rewrite Hexec by (cbn; lia)
      | rewrite Hinc
      | rewrite Hknown
      | match goal with
        | |- context [match db_metadata db ?n ?q with _ => _ end] =>
            destruct (db_metadata db n q) eqn:?
        end ];
    reflexivity.
Qed.

(** One attempt, in terms of the cursor step and of the end of the
    attempt. *)
Lemma read_body_finish (bs : option Z) (self : Postgres) (c : Counters)
    (t : TableRef) (schema table : string) (s1 : Postgres) (c1 : Counters)
    (ev1 : list Event) (k : nat) :
  py_index (tables self) (index self) = Some t ->
  split1 "." (value t) = Some (schema, table) ->
  (if cursor self is Some _ then ret tt
   else open_cursor KEY_STRATEGY db schema table) self c
  = (Ok tt, s1, c1, ev1) ->
  cursor s1 = Some k ->
  db_execute db (statements c1) (fetch_query (batch_size_of bs self)) = None ->
  read_body KEY_STRATEGY db bs self c
  = finish_outcome db (batch_size_of bs self) schema table s1 c1
      (progress_of self table :: ev1).
Proof.
  intros Ht Hsplit Hens Hk Hfetch.
  rewrite read_body_unfold. cbv zeta.
  rewrite (py_index_in_range _ _ _ Ht), Ht, Hsplit, Hens, Hk.
  fold (batch_size_of bs self). rewrite Hfetch.
  unfold finish_outcome, progress_of. cbv zeta.
  destruct (last _) as [last_row|].
  - destruct (current_keys s1) as [keys|]; cbn [app];
      now rewrite <- ?app_assoc.
  - cbn [app]. now rewrite <- ?app_assoc.
Qed.

Lemma read_body_opening (bs : option Z) (self : Postgres) (c : Counters)
    (t : TableRef) (schema table host dbname : string) (port : Z) :
  cursor self = None ->
  py_index (tables self) (index self) = Some t ->
  split1 "." (value t) = Some (schema, table) ->
  parse_addr (src_addr (source self)) = Ok (host, port, dbname) ->
  let args := mkArgs host port (src_user (source self))
                (src_password (source self)) dbname CONNECT_TIMEOUT in
  db_connect db (connects c) args = None ->
  (forall m query, (statements c <= m)%nat -> db_execute db m query = None) ->
  read_body KEY_STRATEGY db bs self c
  = match introspect KEY_STRATEGY db schema table self (statements c) with
    | (keys, max_value, n, catalog) =>
        finish_outcome db (batch_size_of bs self) schema table
          (set_current_keys (Some keys)
             (set_handles (Some (connects c)) (Some (connects c)) self))
          (mkCounters (S (connects c)) (S n) (fetches c) (draws c))
          (progress_of self table :: EvConnect args :: catalog
             ++ [EvExecute (declare_query schema table self keys max_value)]
          )%list
    end.
Proof.
  intros Hcur Ht Hsplit Hparse args Hconn Hexec.
  pose proof (open_cursor_run schema table self c host dbname port Hparse
                Hconn Hexec) as Hopen.
  fold args in Hopen.
  assert (Hn : (statements c
                <= (introspect KEY_STRATEGY db schema table self (statements c)).1.2)%nat).
  { unfold introspect. cbv zeta. cbn [fst snd].
    destruct (str_truthy (inckey self)), (default [] (current_keys self));
      try destruct (db_metadata db _ _); lia. }
  destruct (introspect KEY_STRATEGY db schema table self (statements c))
    as [[[keys max_value] n] catalog]. cbn [fst snd] in Hn.
  apply (read_body_finish bs self c t schema table _ _ _ (connects c) Ht Hsplit).
  - rewrite Hcur. exact Hopen.
  - reflexivity.
  - apply Hexec. cbn [statements]. lia.
Qed.

End Opening.


Lemma finish_outcome_ok (db : Database) (size : Z) (schema table : string)
    (s1 : Postgres) (c1 : Counters) (before : list Event)
    (keys : list KeyDescriptor) :
  current_keys s1 = Some keys ->
  exists rows self' c' events,
    finish_outcome db size schema table s1 c1 before
    = (Ok (Some rows), self', c', events).
Proof.
  intros Hk. unfold finish_outcome. cbv zeta. rewrite Hk.
  destruct (last _); eauto 10.
Qed.

(** X19.  Without a cursor, on a database that grants the connection and
    accepts every statement, [read] connects, asks the catalog for the
    index columns of the table unless keys are already known, falls back
    on the first column of the table when there is none, applies the key
    strategy, asks for the maximum of the incremental column when one is
    configured, declares the cursor with the query built from these and
    from the saved last value, and fetches: it returns a batch at the
    first attempt. *)
Theorem read_opens_cursor
    (KEY_STRATEGY : list (list KeyDescriptor -> list KeyDescriptor))
    (db : Database) (bs : option Z) (self : Postgres) (c : Counters)
    (t : TableRef) (schema table host dbname : string) (port : Z) :
  cursor self = None ->
  py_index (tables self) (index self) = Some t ->
  split1 "." (value t) = Some (schema, table) ->
  parse_addr (src_addr (source self)) = Ok (host, port, dbname) ->
  let args := mkArgs host port (src_user (source self))
                (src_password (source self)) dbname CONNECT_TIMEOUT in
  db_connect db (connects c) args = None ->
  (forall m query, (statements c <= m)%nat -> db_execute db m query = None) ->
  let outcome :=
    match introspect KEY_STRATEGY db schema table self (statements c) with
    | (keys, max_value, n, catalog) =>
        finish_outcome db (batch_size_of bs self) schema table
          (set_current_keys (Some keys)
             (set_handles (Some (connects c)) (Some (connects c)) self))
          (mkCounters (S (connects c)) (S n) (fetches c) (draws c))
          (progress_of self table :: EvConnect args :: catalog
             ++ [EvExecute (declare_query schema table self keys max_value)]
          )%list
    end in
  read KEY_STRATEGY db bs self c = outcome
  /\ exists rows, outcome.1.1.1 = Ok (Some rows).
Proof.
  intros Hcur Ht Hsplit Hparse args Hconn Hexec outcome.
  pose proof (read_body_opening KEY_STRATEGY db bs self c t schema table host
                dbname port Hcur Ht Hsplit Hparse Hconn Hexec) as Hbody.
  fold args in Hbody. fold outcome in Hbody.
  assert (Hok : exists rows self' c' events,
             outcome = (Ok (Some rows), self', c', events)).
  { subst outcome.
    destruct (introspect KEY_STRATEGY db schema table self (statements c))
      as [[[keys max_value] n] catalog].
    now apply finish_outcome_ok with keys. }
  destruct Hok as (rows & self' & c' & events & Hout).
  rewrite Hout in *. split; [| now exists rows].
  unfold read. now apply on_exception_ok.
Qed.

(** X20.  When the FETCH of [read] fails on a database error and the
    database answers afterwards, [read] drops its handles, waits once,
    connects again and declares the cursor anew from the state it had
    saved: the query of the new cursor carries the last value of the last
    checkpoint and the ordering key the strategy gives for the keys it
    knew, and the batch is then fetched and returned. *)
Theorem read_retry_resumes
    (KEY_STRATEGY : list (list KeyDescriptor -> list KeyDescriptor))
    (db : Database) (bs : option Z) (self : Postgres) (c : Counters)
    (t : TableRef) (schema table host dbname : string) (port : Z)
    (k : nat) (e : Exn) :
  cursor self = Some k ->
  py_index (tables self) (index self) = Some t ->
  split1 "." (value t) = Some (schema, table) ->
  db_execute db (statements c) (fetch_query (batch_size_of bs self)) = Some e ->
  is_DatabaseError e = true ->
  parse_addr (src_addr (source self)) = Ok (host, port, dbname) ->
  let args := mkArgs host port (src_user (source self))
                (src_password (source self)) dbname CONNECT_TIMEOUT in
  db_connect db (connects c) args = None ->
  (forall m query,
      (S (statements c) <= m)%nat -> db_execute db m query = None) ->
  let outcome :=
    match introspect KEY_STRATEGY db schema table self (S (statements c)) with
    | (keys, max_value, n, catalog) =>
        finish_outcome db (batch_size_of bs self) schema table
          (set_current_keys (Some keys)
             (set_handles (Some (connects c)) (Some (connects c))
                (reset_self self)))
          (mkCounters (S (connects c)) (S n) (fetches c) (draws c))
          ([progress_of self table;
            EvExecute (fetch_query (batch_size_of bs self));
            EvBackoff 1;
            progress_of self table; EvConnect args]
             ++ catalog
             ++ [EvExecute (declare_query schema table self keys max_value)]
          )%list
    end in
  read KEY_STRATEGY db bs self c = outcome
  /\ exists rows, outcome.1.1.1 = Ok (Some rows).
Proof.
  intros Hk Ht Hsplit Hfetch He Hparse args Hconn Hexec outcome.
  assert (Hfirst : read_body KEY_STRATEGY db bs self c
                   = (Raise e, reset_self self, bump_statements c,
                      [progress_of self table;
                       EvExecute (fetch_query (batch_size_of bs self))])).
  { rewrite read_body_unfold. cbv zeta.
    rewrite (py_index_in_range _ _ _ Ht), Ht, Hsplit, Hk.
    unfold ret. rewrite Hk. fold (batch_size_of bs self).
    rewrite Hfetch, He. reflexivity. }
  pose proof (read_body_opening KEY_STRATEGY db bs (reset_self self)
                (bump_statements c) t schema table host dbname port
                eq_refl Ht Hsplit Hparse Hconn Hexec) as Hsecond.
  change (introspect KEY_STRATEGY db schema table (reset_self self)
            (statements (bump_statements c)))
    with (introspect KEY_STRATEGY db schema table self (S (statements c)))
    in Hsecond.
  unfold read. change (MAX_RETRIES - 1)%nat with 4%nat.
  rewrite (on_exception_again _ _ _ _ _ _ _ _ _ Hfirst He).
  subst outcome.
  destruct (introspect KEY_STRATEGY db schema table self (S (statements c)))
    as [[[keys max_value] n] catalog].
  match type of Hsecond with
  | _ = finish_outcome ?d ?sz ?sc ?tb ?s1 ?c1 ?before =>
      destruct (finish_outcome_ok d sz sc tb s1 c1 before keys eq_refl)
        as (rows & self' & c' & events & Hout);
      rewrite Hout in Hsecond
  end.
  rewrite (on_exception_ok _ _ _ _ _ _ _ _ _ Hsecond).
  unfold finish_outcome in *. cbv zeta in *.
  cbn [current_keys set_current_keys] in *.
  change (batch_size_of bs (reset_self self)) with (batch_size_of bs self)
    in Hout.
  destruct (last _) as [last_row|]; injection Hout as <- <- <- <-;
    (split; [| now eexists]); cbn [app]; now rewrite <- ?app_assoc.
Qed.


Lemma read_opens_cursor_witness :
  exists rows,
    (read KeyStrategy.KEY_STRATEGY Session.database None
       (init Session.src) fresh).1.1.1 = Ok (Some rows).
Proof.
  pose proof (read_opens_cursor KeyStrategy.KEY_STRATEGY Session.database
                None (init Session.src) fresh
                (mkTable "public.table1" "public.table1")
                "public" "table1" "test.database.name" "foobar" 5432
                eq_refl eq_refl eq_refl eq_refl eq_refl
                (fun _ _ _ => eq_refl)) as [Heq [rows Hrows]].
  exists rows. rewrite Heq. exact Hrows.
Defined.

Lemma read_retry_resumes_witness :
  let db :=
    mkDatabase (fun _ _ => None)
      (fun n _ =>
         if Nat.eqb n 0
         then Some (DatabaseError "server closed the connection unexpectedly")
         else None)
      (fun _ _ => []) (fun _ _ => VInt 9) (fun _ => Session.mock_recs)
      (fun _ => 0) in
  let self :=
    set_handles (Some 0%nat) (Some 0%nat)
      (set_current_keys (Some [Session.column "col1"]) (init Session.src)) in
  exists rows,
    (read KeyStrategy.KEY_STRATEGY db None self fresh).1.1.1 = Ok (Some rows).
Proof.
  intros db self.
  assert (Hafter : forall m query,
             (S (statements fresh) <= m)%nat -> db_execute db m query = None).
  { intros m query Hm. destruct m as [|m]; [cbn in Hm; lia | reflexivity]. }
  pose proof (read_retry_resumes KeyStrategy.KEY_STRATEGY db None self fresh
                (mkTable "public.table1" "public.table1")
                "public" "table1" "test.database.name" "foobar" 5432 0%nat
                (DatabaseError "server closed the connection unexpectedly")
                eq_refl eq_refl eq_refl eq_refl eq_refl eq_refl eq_refl
                Hafter) as [Heq [rows Hrows]].
  exists rows. rewrite Heq. exact Hrows.
Defined.

(** X21.  A table without any key is still read: when the catalog knows
    neither an index column nor a column for it and the key strategy
    gives nothing on no candidate, [read] declares the cursor with a query
    that has no ORDER BY clause, and returns the batch; the checkpoint of
    a non-empty batch then carries an empty last value. *)
Theorem read_without_key
    (KEY_STRATEGY : list (list KeyDescriptor -> list KeyDescriptor))
    (db : Database) (bs : option Z) (self : Postgres) (c : Counters)
    (t : TableRef) (schema table host dbname : string) (port : Z) :
  cursor self = None ->
  current_keys self = None ->
  py_index (tables self) (index self) = Some t ->
  split1 "." (value t) = Some (schema, table) ->
  parse_addr (src_addr (source self)) = Ok (host, port, dbname) ->
  db_connect db (connects c)
    (mkArgs host port (src_user (source self)) (src_password (source self))
       dbname CONNECT_TIMEOUT) = None ->
  (forall m query, (statements c <= m)%nat -> db_execute db m query = None) ->
  db_metadata db (statements c) (SQL_GET_KEYS table) = [] ->
  db_metadata db (S (statements c)) (SQL_GET_COLUMNS table) = [] ->
  key_strategy KEY_STRATEGY [] = [] ->
  let max_value :=
    if str_truthy (inckey self)
    then db_max db (S (S (statements c)))
           (max_query schema table (inckey self))
    else VNone in
  let declare :=
    "DECLARE cur CURSOR FOR "
      ++ select_from schema table
      ++ get_query_where_clause (inckey self) (incval self) max_value
           (last_value (saved_state self)) in
  exists rows self' c' before after,
    read KEY_STRATEGY db bs self c
    = (Ok (Some rows), self', c', (before ++ EvExecute declare :: after)%list)
    /\ rows = map (tag_row table schema (drawn_sid db (draws c)))
                (db_fetch db (fetches c))
    /\ (rows <> [] ->
        saved_state self' = mkSaved (Some (index self)) (Some [])).
Proof.
  intros Hcur Hkeys Ht Hsplit Hparse Hconn Hexec Hidx Hcols Hks
    max_value declare.
  pose proof (read_body_opening KEY_STRATEGY db bs self c t schema table host
                dbname port Hcur Ht Hsplit Hparse Hconn Hexec) as Hbody.
  unfold introspect in Hbody. cbv zeta in Hbody.
  rewrite Hkeys in Hbody. cbn [default from_option id] in Hbody.
  rewrite Hidx, Hcols in Hbody. cbn [take] in Hbody. rewrite Hks in Hbody.
  fold max_value in Hbody.
  assert (Hq : declare_query schema table self [] max_value = declare).
  { unfold declare_query, declare, get_query, get_query_orderby.
    now rewrite !str_app_empty_r. }
  rewrite Hq in Hbody.
  unfold finish_outcome in Hbody. cbv zeta in Hbody.
  cbn [current_keys set_current_keys draws fetches] in Hbody.
  unfold read.
  set (rows := map (tag_row table schema (drawn_sid db (draws c)))
                 (db_fetch db (fetches c))) in *.
  set (before :=
         (progress_of self table
            :: EvConnect (mkArgs host port (src_user (source self))
                            (src_password (source self)) dbname CONNECT_TIMEOUT)
            :: [EvExecute (SQL_GET_KEYS table)]
            ++ [EvExecute (SQL_GET_COLUMNS table)]
            ++ (if str_truthy (inckey self)
                then [EvExecute (max_query schema table (inckey self))]
                else []))%list).
  destruct (last rows) as [last_row|] eqn:Hlast.
  - rewrite (on_exception_ok _ _ _ _ _ _ _ _ _ Hbody).
    exists rows. eexists _, _, before, _.
    split; [| split; [reflexivity |]].
    + f_equal. subst before. cbn [app]. rewrite <- !app_assoc. reflexivity.
    + intros _. reflexivity.
  - apply last_None in Hlast.
    rewrite (on_exception_ok _ _ _ _ _ _ _ _ _ Hbody).
    exists []. eexists _, _, before, _.
    split; [| split; [now rewrite Hlast |]].
    + f_equal. subst before. cbn [app]. rewrite <- !app_assoc. reflexivity.
    + congruence.
Qed.

Lemma read_without_key_witness :
  let db :=
    mkDatabase (fun _ _ => None) (fun _ _ => None) (fun _ _ => [])
      (fun _ _ => VNone) (fun _ => Session.mock_recs) (fun _ => 0) in
  exists rows,
    (read KeyStrategy.KEY_STRATEGY db None (init Session.src) fresh).1.1.1
    = Ok (Some rows).
Proof.
  intros db.
  pose proof (read_without_key KeyStrategy.KEY_STRATEGY db None
                (init Session.src) fresh
                (mkTable "public.table1" "public.table1")
                "public" "table1" "test.database.name" "foobar" 5432
                eq_refl eq_refl eq_refl eq_refl eq_refl eq_refl
                (fun _ _ _ => eq_refl) eq_refl eq_refl eq_refl)
    as (rows & self' & c' & before & after & Heq & _).
  exists rows. now rewrite Heq.
Defined.

(** ** Ports in decimal *)

Lemma digit_of_pretty_N_char (d : N) :
  (d < 10)%N -> digit_of (pretty_N_char d) = Some (Z.of_N d).
Proof.
  intros Hd.
  assert (d = 0 \/ d = 1 \/ d = 2 \/ d = 3 \/ d = 4 \/ d = 5 \/ d = 6
          \/ d = 7 \/ d = 8 \/ d = 9)%N as H by lia.
  repeat destruct H as [->|H]; try subst d; reflexivity.
Qed.

Lemma digits_value_pretty_N_go (x : N) :
  exists m : Z,
    forall (acc : Z) (s : string),
      digits_value acc (pretty_N_go x s) = digits_value (acc * m + Z.of_N x) s.
Proof.
  induction (N.lt_wf_0 x) as [x _ IH].
  destruct (N.eq_dec x 0%N) as [->|Hx].
  - exists 1. intros acc s. rewrite pretty_N_go_0. f_equal. lia.
  - destruct (IH (x `div` 10)%N) as [m Hm].
    { apply N.div_lt; lia. }
    exists (10 * m). intros acc s.
    rewrite pretty_N_go_step by lia. rewrite Hm.
    cbn [digits_value].
    rewrite digit_of_pretty_N_char by (apply N.mod_lt; lia).
    f_equal.
    rewrite N2Z.inj_div, N2Z.inj_mod.
    assert (Hz : Z.of_N x = 10 * (Z.of_N x `div` 10) + Z.of_N x `mod` 10)
      by (apply Z.div_mod; lia).
    change (Z.of_N 10) with 10. lia.
Qed.

Lemma digit_of_bounds (a : ascii) (d : Z) :
  digit_of a = Some d -> (48 <= nat_of_ascii a <= 57)%nat.
Proof.
  unfold digit_of. intros H.
  destruct (Nat.leb 48 (nat_of_ascii a) && Nat.leb (nat_of_ascii a) 57)%bool
    eqn:Hb; [| discriminate].
  apply andb_true_iff in Hb as [H1 H2].
  apply Nat.leb_le in H1, H2. lia.
Qed.

Lemma digit_not (a c : ascii) (d : Z) :
  digit_of a = Some d ->
  (nat_of_ascii c < 48 \/ 57 < nat_of_ascii c)%nat ->
  Ascii.eqb a c = false.
Proof.
  intros Hd Hc. apply digit_of_bounds in Hd.
  destruct (Ascii.eqb_spec a c) as [->|]; [lia | reflexivity].
Qed.

Lemma digit_not_space (a : ascii) (d : Z) :
  digit_of a = Some d -> is_space a = false.
Proof.
  intros Hd. apply digit_of_bounds in Hd. unfold is_space. cbv zeta.
  destruct (Nat.eqb_spec (nat_of_ascii a) 32); [lia |].
  destruct (Nat.leb_spec 9 (nat_of_ascii a)),
    (Nat.leb_spec (nat_of_ascii a) 13); try reflexivity; lia.
Qed.

Lemma digits_has_no (c : ascii) (s : string) (acc v : Z) :
  (nat_of_ascii c < 48 \/ 57 < nat_of_ascii c)%nat ->
  digits_value acc s = Some v -> has_char c s = false.
Proof.
  intros Hc. revert acc. induction s as [|a s IH]; intros acc H;
    [reflexivity |].
  cbn [digits_value has_char] in *.
  destruct (digit_of a) as [d|] eqn:Hd; [| discriminate].
  now rewrite (digit_not a c d Hd Hc), (IH _ H).
Qed.

Lemma digits_lstrip (s : string) (acc v : Z) :
  digits_value acc s = Some v -> lstrip s = s.
Proof.
  destruct s as [|a s]; [reflexivity |]. cbn [digits_value lstrip].
  destruct (digit_of a) as [d|] eqn:Hd; [| discriminate].
  now rewrite (digit_not_space a d Hd).
Qed.

Lemma digits_rstrip (s : string) (acc v : Z) :
  digits_value acc s = Some v -> rstrip s = s.
Proof.
  revert acc. induction s as [|a s IH]; intros acc H; [reflexivity |].
  cbn [digits_value rstrip] in *.
  destruct (digit_of a) as [d|] eqn:Hd; [| discriminate].
  rewrite (IH _ H). destruct s; [| reflexivity].
  now rewrite (digit_not_space a d Hd).
Qed.

Lemma int_of_str_digits (s : string) (v : Z) :
  s <> "" -> digits_value 0 s = Some v -> int_of_str s = Some v.
Proof.
  intros Hne H. unfold int_of_str.
  rewrite (digits_lstrip s 0 v H), (digits_rstrip s 0 v H).
  destruct s as [|a s]; [congruence |].
  assert (Hm : Ascii.eqb a "-" = false /\ Ascii.eqb a "+" = false).
  { cbn [digits_value] in H. destruct (digit_of a) as [d|] eqn:Hd;
      [| discriminate].
    split; apply (digit_not a _ d Hd); left; apply Nat.ltb_lt; reflexivity. }
  destruct Hm as [Hminus Hplus].
  destruct a as [[] [] [] [] [] [] [] []];
    try discriminate Hminus; try discriminate Hplus; exact H.
Qed.

Lemma int_of_str_pretty (port : Z) :
  0 <= port ->
  int_of_str (pretty port) = Some port
  /\ has_char ":" (pretty port) = false.
Proof.
  intros Hp. destruct port as [|p|p]; [now split | | lia].
  change (pretty (Z.pos p)) with (pretty_N_go (N.pos p) "").
  destruct (digits_value_pretty_N_go (N.pos p)) as [m Hm].
  specialize (Hm 0 ""). cbn [digits_value] in Hm.
  replace (0 * m + Z.of_N (N.pos p)) with (Z.pos p) in Hm by lia.
  split.
  - apply int_of_str_digits; [| exact Hm].
    intros He. rewrite He in Hm. discriminate.
  - apply (digits_has_no ":" _ 0 (Z.pos p)); [| exact Hm].
    right. apply Nat.ltb_lt. reflexivity.
Qed.

(** X22.  A port written in decimal in the address reaches the driver as
    that number: with the address host:port/database, the port being the
    decimal text of a natural number and the database name holding no
    slash, [connect] calls the driver with exactly this host, this port
    and this database name. *)
Theorem connect_port_round_trip (db : Database) (src : Source)
    (host dbname : string) (port : Z) (self : Postgres) (c : Counters) :
  0 <= port ->
  has_char "/" dbname = false ->
  src_addr src = host ++ ":" ++ pretty port ++ "/" ++ dbname ->
  exists r,
    connect db src self c
    = (r, self,
       mkCounters (S (connects c)) (statements c) (fetches c) (draws c),
       [EvConnect (mkArgs host port (src_user src) (src_password src) dbname
                     CONNECT_TIMEOUT)]).
Proof.
  intros Hp Hdb Haddr. destruct (int_of_str_pretty port Hp) as [Hint Hcolon].
  unfold connect, parse_addr. rewrite Haddr.
  replace (host ++ ":" ++ pretty port ++ "/" ++ dbname)
    with ((host ++ ":" ++ pretty port) ++ String "/" dbname)
    by now rewrite !str_app_assoc.
  rewrite (rsplit1_last "/" _ dbname Hdb), has_char_app.
  replace (has_char ":" (":" ++ pretty port)) with true by reflexivity.
  rewrite orb_true_r.
  change (":" ++ pretty port) with (String ":" (pretty port)).
  rewrite (rsplit1_last ":" host (pretty port) Hcolon), Hint.
  destruct (db_connect db (connects c) _) as [[]|]; eauto.
Qed.

Lemma connect_port_round_trip_witness :
  exists r,
    connect Session.database
      (mkSource "db.example.com:6543/sales" "test" "secret"
         None None None None None None) (init Session.src) fresh
    = (r, init Session.src, mkCounters 1 0 0 0,
       [EvConnect (mkArgs "db.example.com" 6543 "test" "secret" "sales"
                     CONNECT_TIMEOUT)]).
Proof.
  apply (connect_port_round_trip Session.database
           (mkSource "db.example.com:6543/sales" "test" "secret"
              None None None None None None)
           "db.example.com" "sales" 6543 (init Session.src) fresh).
  - lia.
  - reflexivity.
  - reflexivity.
Defined.
